(** * V-ZUG appliance client: the command executor and the aggregators

    A shallow embedding of [custom_components/vzug/api/__init__.py]:
    [Program.build], [VZugApi._command] with its retry loop, the typed
    accessors, and the aggregators, followed by the properties that the
    specification states about them.

    Python values are a unityped datatype, dictionaries are finite maps,
    exceptions are a datatype, and coroutines are computations in a
    state-and-exception monad over a world that holds the log of device
    exchanges and backoff sleeps together with the store of parameter
    dictionaries.  Awaiting a coroutine is running it to completion; one
    call is followed at a time, so the admission semaphore of the client,
    which such a call takes and gives back, does not appear, and neither
    does logging. *)

From Stdlib Require Import ZArith PrimFloat.
From stdpp Require Import gmap strings list fin_maps pretty.

Set Default Proof Using "Type".
#[local] Set Warnings "-register-all,-clear-no-such-hyp".

(** ** Python values and exceptions *)

(** JSON-shaped Python values, as [json.loads] produces them and as the
    executor hands them to its callers ([Any] in the source).  [PFuture] is
    a pending [asyncio] future object. *)
Inductive pyval :=
| PNone
| PBool (b : bool)
| PInt (z : Z)
| PFloat (f : float)
| PStr (s : string)
| PList (l : list pyval)
| PDict (d : gmap string pyval)
| PFuture.

(** The classes that are passed as [expected_type]. *)
Inductive pytype := TList | TDict | TStr | TInt | TFloat | TBool.

(** The exceptions that occur.  [ClientResponseError] is the subclass of
    [aiohttp.ClientError] that carries an HTTP status; [ClientError] stands
    for every other [aiohttp.ClientError]. *)
Inductive exn :=
| ClientResponseError (status : Z)
| ClientError (msg : string)
| AssertionError (msg : string)
| ValueError (msg : string)
| JSONDecodeError
| TypeError (msg : string)
| KeyError (key : string)
| AttributeError (msg : string)
| RuntimeError (msg : string)
| TimeoutError.

Inductive outcome (A : Type) :=
| Ok (a : A)
| Raise (e : exn).
Arguments Ok {A} a.
Arguments Raise {A} e.

(** [isinstance(data, cls)]; [bool] is a subclass of [int]. *)
Definition isinstance (data : pyval) (cls : pytype) : bool :=
  match cls, data with
  | TList, PList _ => true
  | TDict, PDict _ => true
  | TStr, PStr _ => true
  | TInt, PInt _ => true
  | TInt, PBool _ => true
  | TFloat, PFloat _ => true
  | TBool, PBool _ => true
  | _, _ => false
  end.

(** [len(data)]: defined on strings, lists and dictionaries, a [TypeError]
    elsewhere. *)
Definition py_len (data : pyval) : outcome nat :=
  match data with
  | PStr s => Ok (String.length s)
  | PList l => Ok (length l)
  | PDict d => Ok (size d)
  | _ => Raise (TypeError "object has no len()")
  end.

(** [data[key]] for a string key. *)
Definition py_getitem (data : pyval) (key : string) : outcome pyval :=
  match data with
  | PDict d =>
      match d !! key with
      | Some v => Ok v
      | None => Raise (KeyError key)
      end
  | _ => Raise (TypeError "indices must be integers or object is not subscriptable")
  end.

(** [data.get(key, dflt)]. *)
Definition py_get (data : pyval) (key : string) (dflt : pyval) : outcome pyval :=
  match data with
  | PDict d => Ok (default dflt (d !! key))
  | _ => Raise (AttributeError "get")
  end.

(** ** Program *)

(** [ProgramInfo.__required_keys__ | ProgramInfo.__optional_keys__]. *)
Definition ProgramInfo_keys : list string := ["id"; "name"; "status"; "stepIds"].

Module Program.

Record t := mk { info : gmap string pyval; options : gmap string pyval }.

(** One round of the loop of [build]: [info[key] = options[key]], and on
    success [del options[key]]; a [LookupError] leaves both as they are. *)
Definition extract (acc : gmap string pyval * gmap string pyval) (key : string)
  : gmap string pyval * gmap string pyval :=
  match acc.2 !! key with
  | Some v => (<[key := v]> acc.1, delete key acc.2)
  | None => acc
  end.

(** The loop of [build], over the keys in the order [keys]. *)
Definition build_over (keys : list string) (raw : gmap string pyval) : t :=
  let acc := foldl extract (∅, raw) keys in
  {| info := acc.1; options := acc.2 |}.

Definition build (raw : gmap string pyval) : t := build_over ProgramInfo_keys raw.

End Program.

(** ** The world: device exchanges, sleeps and the dictionary store *)

(** What one [session.get] gives: the transport raises, or the device
    answers with a status and a body. *)
Inductive response :=
| RespRaise (e : exn)
| RespHttp (status : Z) (body : string).

(** The observable events of a call, in the order they happen. *)
Inductive event :=
| EvGet (url : string) (params : gmap string string) (resp : response)
| EvSleep (delay : float).

Record world := mkWorld {
  trace : list event;
  heap : gmap nat (gmap string string);
}.

Definition M (A : Type) : Type := world → outcome A * world.

Definition ret {A} (a : A) : M A := λ w, (Ok a, w).
Definition raise {A} (e : exn) : M A := λ w, (Raise e, w).
Definition bind {A B} (m : M A) (k : A → M B) : M B :=
  λ w, match m w with
       | (Ok a, w') => k a w'
       | (Raise e, w') => (Raise e, w')
       end.
(** [try: ... except ...] hands the outcome of the body to the handlers. *)
Definition try_catch {A} (m : M A) : M (outcome A) :=
  λ w, let '(r, w') := m w in (Ok r, w').
Definition lift {A} (r : outcome A) : M A := λ w, (r, w).

Declare Scope py_scope.
Delimit Scope py_scope with py.
Notation "x <- m ;; k" := (bind m (λ x, k))
  (at level 100, m at next level, right associativity) : py_scope.
Notation "m ;; k" := (bind m (λ _, k))
  (at level 100, right associativity) : py_scope.
Local Open Scope py_scope.

(** [assert cond, msg]. *)
Definition py_assert (cond : bool) (msg : string) : outcome unit :=
  if cond then Ok tt else Raise (AssertionError msg).

(** Dictionary objects live in the store; a dictionary value is a
    reference. *)
Definition dict_new (d : gmap string string) : M nat :=
  λ w, let l := fresh (dom (heap w)) in
       (Ok l, {| trace := trace w; heap := <[l := d]> (heap w) |}).
Definition dict_read (l : nat) : M (gmap string string) :=
  λ w, (Ok (default ∅ (heap w !! l)), w).
Definition dict_copy (l : nat) : M nat :=
  d <- dict_read l ;; dict_new d.
Definition dict_setitem (l : nat) (k v : string) : M unit :=
  λ w, (Ok tt, {| trace := trace w; heap := alter (insert k v) l (heap w) |}).

(** [asyncio.sleep(delay)]. *)
Definition sleep (delay : float) : M unit :=
  λ w, (Ok tt, {| trace := trace w ++ [EvSleep delay]; heap := heap w |}).

(** The events that a run from [w] to [w'] added. *)
Definition new_events (w w' : world) : list event :=
  drop (length (trace w)) (trace w').

Definition is_get (ev : event) : bool :=
  match ev with EvGet _ _ _ => true | EvSleep _ => false end.

(** The HTTP attempts of a trace, and the delays slept in it. *)
Definition gets (t : list event) : list event := List.filter is_get t.
Definition sleeps (t : list event) : list float :=
  omap (λ ev, match ev with EvSleep d => Some d | EvGet _ _ _ => None end) t.

(** The [command] query parameter of a request event. *)
Definition command_of (ev : event) : option string :=
  match ev with EvGet _ p _ => p !! "command" | EvSleep _ => None end.

(** ** The client *)

(** What the client object holds: the session, seen as the device behind it
    (the answer to a GET may depend on everything that happened before), and
    the base URL. *)
Record VZugApi := {
  session_get : list event → string → gmap string string → response;
  base_url : string;
}.

(** The library functions the client calls: the clock, read after a given
    history, in whole seconds ([int(time.time())]); the JSON decoding of a
    response body done by [resp.json(content_type=None)], [None] when the
    body is not JSON; and [json.dumps] on an options dictionary. *)
Record Runtime := {
  time_time : list event → Z;
  json_loads : string → option pyval;
  json_dumps : gmap string pyval → string;
}.

(** list of status codes that we don't count as false-positives *)
Definition _TRUSTED_STATUS_CODES : gset Z := {[ 401%Z; 404%Z ]}.

(** What the [except] clauses of the retry loop do with an exception of the
    attempt: leave the loop, sleep and go on, or let it pass (no clause
    matches). *)
Inductive handler := Break | Retry | Propagate.

Definition except_clause (exc : exn) : handler :=
  match exc with
  | ClientResponseError status =>
      if bool_decide (status ∈ _TRUSTED_STATUS_CODES) then Break else Retry
  | ClientError _ => Retry
  | AssertionError _ => Retry
  | _ => Propagate
  end.

(** How the [for] loop of [_command] ends when it does not raise: by
    [return] from inside it, or by falling out of it ([break] or
    exhaustion) with the last recorded exception. *)
Inductive loop_exit :=
| LoopReturn (v : pyval)
| LoopDone (last_exc : exn).

Definition default_attempts : Z := 5.
Definition default_retry_delay : float := 0.5%float.

(** [self._base_url / component] *)
Definition url_join (base component : string) : string :=
  base +:+ "/" +:+ component.

Section Client.
Context (rt : Runtime) (self : VZugApi).

(** [self._session.get(url, params=final_params)], one exchange with the
    device. *)
Definition http_get (url : string) (params : gmap string string) : M response :=
  λ w, let resp := session_get self (trace w) url params in
       (Ok resp, {| trace := trace w ++ [EvGet url params resp]; heap := heap w |}).

Definition get_time : M Z := λ w, (Ok (time_time rt (trace w)), w).

(** The body of [once] from [resp.raise_for_status()] on. *)
Definition handle_response (raw : bool) (expected_type : option pytype)
    (reject_empty : bool) (resp : response) : outcome pyval :=
  match resp with
  | RespRaise e => Raise e
  | RespHttp status body =>
      if (400 <=? status)%Z then Raise (ClientResponseError status)
      else if raw then Ok (PStr body)
      else
        match json_loads rt body with
        | None => Raise JSONDecodeError
        | Some data =>
            let data :=
              match expected_type, data with
              | Some TList, PNone => PList []
              | _, _ => data
              end in
            match
              match expected_type with
              | Some cls => py_assert (isinstance data cls) "data type mismatch"
              | None => Ok tt
              end
            with
            | Raise e => Raise e
            | Ok _ =>
                if reject_empty then
                  match py_len data with
                  | Raise e => Raise e
                  | Ok n =>
                      match py_assert (0 <? n)%nat "empty response rejected" with
                      | Raise e => Raise e
                      | Ok _ => Ok data
                      end
                  end
                else Ok data
            end
        end
  end.

Definition once (url : string) (final_params : nat) (raw : bool)
    (expected_type : option pytype) (reject_empty : bool) : M pyval :=
  p <- dict_read final_params ;;
  resp <- http_get url p ;;
  lift (handle_response raw expected_type reject_empty resp).

(** [for _ in range(attempts)] with [n] rounds left. *)
Fixpoint retry_loop (n : nat) (attempt : M pyval) (retry_delay : float)
    (last_exc : exn) : M loop_exit :=
  match n with
  | O => ret (LoopDone last_exc)
  | S n' =>
      r <- try_catch attempt ;;
      match r with
      | Ok v => ret (LoopReturn v)
      | Raise exc =>
          match except_clause exc with
          | Break => ret (LoopDone exc)
          | Retry =>
              sleep retry_delay ;;
              retry_loop n' attempt (retry_delay * 2)%float exc
          | Propagate => raise exc
          end
      end
  end.

Definition _command (component command : string) (params : option nat)
    (raw : bool) (expected_type : option pytype) (reject_empty : bool)
    (attempts : Z) (retry_delay : float)
    (value_on_err : option (unit → pyval)) : M pyval :=
  params <- match params with
            | None => dict_new ∅
            | Some p => ret p
            end ;;
  final_params <- dict_copy params ;;
  dict_setitem final_params "command" command ;;
  now <- get_time ;;
  dict_setitem final_params "_" (pretty now) ;;
  let url := url_join (base_url self) component in
  x <- retry_loop (Z.to_nat attempts)
         (once url final_params raw expected_type reject_empty)
         retry_delay (ValueError "no attempts made") ;;
  match x with
  | LoopReturn v => ret v
  | LoopDone last_exc =>
      match value_on_err with
      | Some producer => ret (producer tt)
      | None => raise last_exc
      end
  end.

(** The world in which the loop of [_command] starts, and the reference
    of [final_params]. *)
Definition prelude (command : string) (params : option nat) (w : world) : nat * world :=
  let w1 :=
    match params with
    | None => (fresh (dom (heap w)),
               {| trace := trace w; heap := <[fresh (dom (heap w)) := ∅]> (heap w) |})
    | Some l => (l, w)
    end in
  let l2 := fresh (dom (heap w1.2)) in
  let h2 := <[l2 := default ∅ (heap w1.2 !! w1.1)]> (heap w1.2) in
  let h3 := alter (insert "command" command) l2 h2 in
  let h4 := alter (insert "_" (pretty (time_time rt (trace w)))) l2 h3 in
  (l2, {| trace := trace w; heap := h4 |}).

End Client.

(** ** Futures and sequence unpacking *)

(** A future is pending or holds its result.  [asyncio.gather] wraps its
    coroutines into tasks, which get to run only once the calling coroutine
    suspends: the future it hands back is pending unless there is nothing to
    gather. *)
Inductive future_state :=
| FutPending
| FutDone (result : pyval).

Definition gather_future (coros : list (M pyval)) : future_state :=
  match coros with
  | [] => FutDone (PList [])
  | _ :: _ => FutPending
  end.

Inductive iter_step :=
| Yield (v : pyval)
| StopIteration
| IterRaise (e : exn).

(** [Future.__iter__] is [Future.__await__]: a generator that yields the
    future itself while it is pending, and that, resumed with the future
    still pending, raises; on a finished future it yields nothing and returns
    the result.  [k] counts the earlier calls of [next]. *)
Definition future_next (st : future_state) (k : nat) : iter_step :=
  match st, k with
  | FutDone _, _ => StopIteration
  | FutPending, O => Yield PFuture
  | FutPending, S _ => IterRaise (RuntimeError "await wasn't used with future")
  end.

(** [a, b, ... = iterable] with [n] targets: [n] calls of [next] for the
    items and one more that must find the iterator exhausted. *)
Fixpoint unpack_from (n k : nat) (next : nat → iter_step) : outcome (list pyval) :=
  match n with
  | O =>
      match next k with
      | StopIteration => Ok []
      | Yield _ => Raise (ValueError "too many values to unpack")
      | IterRaise e => Raise e
      end
  | S n' =>
      match next k with
      | Yield v =>
          match unpack_from n' (S k) next with
          | Ok l => Ok (v :: l)
          | Raise e => Raise e
          end
      | StopIteration => Raise (ValueError "not enough values to unpack")
      | IterRaise e => Raise e
      end
  end.

Definition unpack_sequence (n : nat) (next : nat → iter_step) : outcome (list pyval) :=
  unpack_from n 0 next.

(** A value used where the annotations say [str]. *)
Definition as_str (v : pyval) : outcome string :=
  match v with
  | PStr s => Ok s
  | _ => Raise (TypeError "str expected")
  end.

(** A value iterated as a [list[str]]. *)
Fixpoint as_strs (l : list pyval) : outcome (list string) :=
  match l with
  | [] => Ok []
  | v :: l' =>
      match as_str v, as_strs l' with
      | Ok s, Ok ss => Ok (s :: ss)
      | Raise e, _ => Raise e
      | _, Raise e => Raise e
      end
  end.

Definition iter_strs (v : pyval) : outcome (list string) :=
  match v with
  | PList l => as_strs l
  | _ => Raise (TypeError "list expected")
  end.

(** A loop whose body threads an accumulator and may raise. *)
Fixpoint for_each {A B} (body : B → A → M B) (acc : B) (l : list A) : M B :=
  match l with
  | [] => ret acc
  | x :: l' => acc' <- body acc x ;; for_each body acc' l'
  end.

(** ** The aggregates *)

Record AggState := {
  zh_mode : pyval;
  device : pyval;
  device_fetched_at : Z;
  notifications : pyval;
  eco_info : pyval;
}.

Record AggUpdateStatus := {
  update : pyval;
  ai_fw_version : pyval;
  hh_fw_version : pyval;
}.

Record AggMeta := {
  mac_address : pyval;
  model_description : pyval;
}.

Record AggCategory := {
  key : string;
  description : pyval;
  commands : gmap string pyval;
}.

(** [Program.build] applied to an element of the [getProgram] answer. *)
Definition build_program (raw : pyval) : outcome Program.t :=
  match raw with
  | PDict d => Ok (Program.build d)
  | PList _ => Raise (TypeError "list indices must be integers")
  | _ => Raise (AttributeError "copy")
  end.

Fixpoint build_programs (l : list pyval) : outcome (list Program.t) :=
  match l with
  | [] => Ok []
  | raw :: l' =>
      match build_program raw with
      | Raise e => Raise e
      | Ok p =>
          match build_programs l' with
          | Raise e => Raise e
          | Ok ps => Ok (p :: ps)
          end
      end
  end.

(** ** Typed accessors and aggregators *)

Section Accessors.
Context (rt : Runtime) (self : VZugApi).

(** [(lambda: v) if default_on_error else None] *)
Definition producer_if (default_on_error : bool) (v : pyval) : option (unit → pyval) :=
  if default_on_error then Some (λ _, v) else None.

Definition get_mac_address (default_on_error : bool) : M pyval :=
  _command rt self "ai" "getMacAddress" None true None false
    default_attempts default_retry_delay (producer_if default_on_error (PStr "")).

Definition get_model_description (default_on_error : bool) : M pyval :=
  _command rt self "ai" "getModelDescription" None true None false
    default_attempts default_retry_delay (producer_if default_on_error (PStr "")).

Definition get_device_status (default_on_error : bool) : M pyval :=
  _command rt self "ai" "getDeviceStatus" None false (Some TDict) false
    default_attempts default_retry_delay (producer_if default_on_error (PDict ∅)).

Definition get_update_status (default_on_error : bool) : M pyval :=
  _command rt self "ai" "getUpdateStatus" None false (Some TDict) false
    default_attempts default_retry_delay (producer_if default_on_error (PDict ∅)).

Definition check_for_updates : M unit :=
  _command rt self "ai" "checkUpdate" None true None false
    2 default_retry_delay None ;;
  ret tt.

Definition do_ai_update : M unit :=
  _command rt self "ai" "doAIUpdate" None false None false
    default_attempts default_retry_delay None ;;
  ret tt.

Definition do_hhg_update : M unit :=
  _command rt self "ai" "doHHGUpdate" None false None false
    default_attempts default_retry_delay None ;;
  ret tt.

Definition get_last_push_notifications (default_on_error : bool) : M pyval :=
  _command rt self "ai" "getLastPUSHNotifications" None false (Some TList) false
    default_attempts default_retry_delay (producer_if default_on_error (PList [])).

Definition list_categories : M pyval :=
  _command rt self "hh" "getCategories" None false (Some TList) false
    default_attempts default_retry_delay None.

Definition get_category (value : string) : M pyval :=
  p <- dict_new {[ "value" := value ]} ;;
  _command rt self "hh" "getCategory" (Some p) false (Some TDict) false
    default_attempts default_retry_delay None.

Definition list_commands (value : string) : M pyval :=
  p <- dict_new {[ "value" := value ]} ;;
  _command rt self "hh" "getCommands" (Some p) false (Some TList) false
    default_attempts default_retry_delay None.

Definition get_command (value : string) : M pyval :=
  p <- dict_new {[ "value" := value ]} ;;
  _command rt self "hh" "getCommand" (Some p) false (Some TDict) false
    default_attempts default_retry_delay None.

Definition set_command (command value : string) : M unit :=
  p <- dict_new {[ "value" := value ]} ;;
  _command rt self "hh" ("set" +:+ command) (Some p) true None false
    2 default_retry_delay None ;;
  ret tt.

Definition do_command_action (command : string) : M unit :=
  _command rt self "hh" ("do" +:+ command) None true None false
    2 default_retry_delay None ;;
  ret tt.

Definition get_hh_fw_version (default_on_error : bool) : M pyval :=
  _command rt self "hh" "getFWVersion" None false (Some TDict) false
    default_attempts default_retry_delay (producer_if default_on_error (PDict ∅)).

Definition get_ai_fw_version (default_on_error : bool) : M pyval :=
  _command rt self "ai" "getFWVersion" None false (Some TDict) false
    default_attempts default_retry_delay (producer_if default_on_error (PDict ∅)).

Definition get_zh_mode (default_on_error : bool) : M pyval :=
  data <- _command rt self "hh" "getZHMode" None false (Some TDict) false
            default_attempts default_retry_delay
            (producer_if default_on_error (PDict {[ "value" := PInt (-1) ]})) ;;
  lift (py_getitem data "value").

Definition get_eco_info (default_on_error : bool) : M pyval :=
  _command rt self "hh" "getEcoInfo" None false (Some TDict) false
    default_attempts default_retry_delay (producer_if default_on_error (PDict ∅)).

Definition get_device_info : M pyval :=
  _command rt self "hh" "getDeviceInfo" None false (Some TDict) false
    default_attempts default_retry_delay None.

Definition get_program : M (list Program.t) :=
  raw_programs <- _command rt self "hh" "getProgram" None false (Some TList) false
                    default_attempts default_retry_delay None ;;
  match raw_programs with
  | PList l => lift (build_programs l)
  | _ => raise (TypeError "not iterable")
  end.

(** The options dictionary is taken by value here: the source writes
    ["id"] into the caller's dictionary when that is not empty. *)
Definition set_program (program_id : Z) (options : option (gmap string pyval)) : M pyval :=
  let options :=
    match options with
    | None => ∅
    | Some o => if decide (o = ∅) then ∅ else o
    end in
  let options := <[ "id" := PInt program_id ]> options in
  p <- dict_new {[ "value" := json_dumps rt options ]} ;;
  _command rt self "hh" "setProgram" (Some p) true None false
    2 default_retry_delay None.

Definition get_all_program_ids : M pyval :=
  _command rt self "hh" "getAllProgramIds" None false (Some TList) false
    default_attempts default_retry_delay None.

Definition aggregate_state (default_on_error : bool) : M AggState :=
  (* always start with zh_mode, that seems to do something?? *)
  zh_mode <- get_zh_mode true ;;
  device <- get_device_status default_on_error ;;
  device_fetched_at <- get_time rt ;;
  notifications <- get_last_push_notifications default_on_error ;;
  eco_info <- get_eco_info default_on_error ;;
  ret {| zh_mode := zh_mode; device := device;
         device_fetched_at := device_fetched_at;
         notifications := notifications; eco_info := eco_info |}.

Definition aggregate_update_status (default_on_error : bool) : M AggUpdateStatus :=
  update <- get_update_status default_on_error ;;
  ai_fw_version <- get_ai_fw_version default_on_error ;;
  hh_fw_version <- get_hh_fw_version default_on_error ;;
  ret {| update := update; ai_fw_version := ai_fw_version;
         hh_fw_version := hh_fw_version |}.

Definition aggregate_meta (default_on_error : bool) : M AggMeta :=
  mac_address <- get_mac_address default_on_error ;;
  model_description <- get_model_description default_on_error ;;
  ret {| mac_address := mac_address; model_description := model_description |}.

(** [handle_command_key], with the [commands] dictionary of the category
    threaded through. *)
Definition handle_command_key (commands : gmap string pyval) (command_key : string)
  : M (gmap string pyval) :=
  command_raw <- get_command command_key ;;
  ret (<[ command_key := command_raw ]> commands).

(** The body of the loop over the category keys.  The first
    [asyncio.gather] is not awaited: its future is unpacked as it is.  The
    awaited [gather] over the command keys runs its coroutines one after
    the other here. *)
Definition aggregate_category (config_tree : gmap string AggCategory)
    (category_key : string) : M (gmap string AggCategory) :=
  let fut := gather_future [get_category category_key; list_commands category_key] in
  items <- lift (unpack_sequence 2 (future_next fut)) ;;
  match items with
  | [category_raw; command_keys] =>
      description <- lift (py_get category_raw "description" (PStr "")) ;;
      command_keys <- lift (iter_strs command_keys) ;;
      commands <- for_each handle_command_key ∅ command_keys ;;
      ret (<[ category_key :=
                {| key := category_key; description := description;
                   commands := commands |} ]> config_tree)
  | _ => raise (ValueError "unpack")
  end.

Definition aggregate_config : M (gmap string AggCategory) :=
  category_keys <- list_categories ;;
  category_keys <- lift (iter_strs category_keys) ;;
  for_each aggregate_category ∅ category_keys.

End Accessors.

(** ** Observations on a run *)

(** The exception with which the attempt recorded in [ev] ended, if it
    ended with one; [h] is the treatment of the response. *)
Definition attempt_exn (h : response → outcome pyval) (ev : event) : option exn :=
  match ev with
  | EvGet _ _ resp =>
      match h resp with
      | Raise e => Some e
      | Ok _ => None
      end
  | EvSleep _ => None
  end.

Definition attempt_fails (h : response → outcome pyval) (ev : event) : bool :=
  match ev with
  | EvGet _ _ _ => bool_decide (is_Some (attempt_exn h ev))
  | EvSleep _ => true
  end.

(** The attempt failed with an exception for which the loop has an
    [except] clause. *)
Definition attempt_caught (h : response → outcome pyval) (ev : event) : bool :=
  match ev with
  | EvGet _ _ _ =>
      match attempt_exn h ev with
      | Some e =>
          match except_clause e with
          | Propagate => false
          | _ => true
          end
      | None => false
      end
  | EvSleep _ => true
  end.

Definition every_attempt_fails (h : response → outcome pyval) (t : list event) : Prop :=
  forallb (attempt_fails h) t = true.

Definition every_attempt_caught (h : response → outcome pyval) (t : list event) : Prop :=
  forallb (attempt_caught h) t = true.

(** The exception of the last failed attempt of [t], [init] when there is
    none. *)
Definition last_failure (h : response → outcome pyval) (init : exn) (t : list event) : exn :=
  foldl (λ acc ev, default acc (attempt_exn h ev)) init t.

(** The events of a loop in which every one of the attempts [gs] is
    followed by its backoff sleep, from the delay [d] on. *)
Fixpoint with_backoff (gs : list event) (d : float) : list event :=
  match gs with
  | [] => []
  | g :: gs' => g :: EvSleep d :: with_backoff gs' (d * 2)%float
  end.

(** What the code after the loop makes of the way the loop ended. *)
Definition after_loop (value_on_err : option (unit → pyval))
    (x : outcome loop_exit) : outcome pyval :=
  match x with
  | Ok (LoopReturn v) => Ok v
  | Ok (LoopDone last_exc) =>
      match value_on_err with
      | Some producer => Ok (producer tt)
      | None => Raise last_exc
      end
  | Raise e => Raise e
  end.

(** The runs of the retry loop with [n] rounds left, delay [d] and last
    recorded exception [e]: their events and the way they end. *)
Inductive loop_run (h : response → outcome pyval) (url : string)
    (p : gmap string string)
  : nat → float → exn → list event → outcome loop_exit → Prop :=
| run_exhausted d e :
    loop_run h url p 0 d e [] (Ok (LoopDone e))
| run_return n d e resp v :
    h resp = Ok v →
    loop_run h url p (S n) d e [EvGet url p resp] (Ok (LoopReturn v))
| run_break n d e resp exc :
    h resp = Raise exc → except_clause exc = Break →
    loop_run h url p (S n) d e [EvGet url p resp] (Ok (LoopDone exc))
| run_propagate n d e resp exc :
    h resp = Raise exc → except_clause exc = Propagate →
    loop_run h url p (S n) d e [EvGet url p resp] (Raise exc)
| run_retry n d e resp exc t x :
    h resp = Raise exc → except_clause exc = Retry →
    loop_run h url p n (d * 2)%float exc t x →
    loop_run h url p (S n) d e (EvGet url p resp :: EvSleep d :: t) x.

(** The event is not a request, or it is a request for one of the
    commands [cmds]. *)
Definition sends (cmds : list string) (ev : event) : Prop :=
  is_get ev = true → ∃ c, command_of ev = Some c ∧ c ∈ cmds.

(** Whatever the world, the computation [m] only adds events, and the
    events it adds all satisfy [φ]. *)
Definition emits {A} (φ : event → Prop) (m : M A) : Prop :=
  ∀ w, ∃ t, trace (m w).2 = trace w ++ t ∧ Forall φ t.

(** A failed call surfaces: the run [res] from [w] made at most [budget]
    attempts; if every one of them failed it ended with an exception; and if
    it returned, its last event is an attempt that the device answered
    successfully. *)
Definition surfaces {A} (h : response → outcome pyval) (budget : nat) (w : world)
    (res : outcome A * world) : Prop :=
  length (gets (new_events w res.2)) ≤ budget
  ∧ (every_attempt_fails h (new_events w res.2) → ∃ e, res.1 = Raise e)
  ∧ (∀ a, res.1 = Ok a →
       ∃ u q resp v, last (new_events w res.2) = Some (EvGet u q resp) ∧ h resp = Ok v).

(** ** Devices and runtimes to run the client on *)

Definition dq : string := String (Ascii.ascii_of_nat 34) EmptyString.
Definition quoted (s : string) : string := dq +:+ s +:+ dq.

Definition body_c1_c2 : string := "[" +:+ quoted "c1" +:+ "," +:+ quoted "c2" +:+ "]".
Definition body_x : string := "[" +:+ quoted "x" +:+ "]".

(** A decoder that knows the bodies used below. *)
Definition loads0 (body : string) : option pyval :=
  if decide (body = "null") then Some PNone
  else if decide (body = "[]") then Some (PList [])
  else if decide (body = "{}") then Some (PDict ∅)
  else if decide (body = "5") then Some (PInt 5)
  else if decide (body = body_c1_c2) then Some (PList [PStr "c1"; PStr "c2"])
  else if decide (body = body_x) then Some (PList [PStr "x"])
  else None.

Definition rt0 : Runtime :=
  {| time_time := λ _, 1700000000%Z; json_loads := loads0; json_dumps := λ _, "{}" |}.

(** A device that answers every request with the status [status] and the
    body [body]. *)
Definition dev_const (status : Z) (body : string) : VZugApi :=
  {| session_get := λ _ _ _, RespHttp status body; base_url := "http://oven" |}.

(** A device whose first answer is a 500 and which answers [body] from then
    on. *)
Definition dev_flaky (body : string) : VZugApi :=
  {| session_get := λ h _ _,
       match h with
       | [] => RespHttp 500 ""
       | _ :: _ => RespHttp 200 body
       end;
     base_url := "http://oven" |}.

(** A device with the categories [c1], with the command [x], and [c2],
    without commands. *)
Definition dev_two_categories : VZugApi :=
  {| session_get := λ _ _ p,
       match p !! "command", p !! "value" with
       | Some "getCategories", _ => RespHttp 200 body_c1_c2
       | Some "getCategory", _ => RespHttp 200 "{}"
       | Some "getCommands", Some "c1" => RespHttp 200 body_x
       | Some "getCommands", _ => RespHttp 200 "[]"
       | Some "getCommand", _ => RespHttp 200 "{}"
       | _, _ => RespHttp 404 ""
       end;
     base_url := "http://oven" |}.

Definition w0 : world := {| trace := []; heap := ∅ |}.

(** A world in which the caller holds a parameter dictionary at [0]. *)
Definition w1 : world := {| trace := []; heap := {[ 0%nat := {[ "value" := "on" ]} ]} |}.

(** The runs that the examples below look at. *)

(** A JSON call that rejects empty answers, with a default value, on a
    device that answers the number 5. *)
Definition run_unsized : outcome pyval * world :=
  _command rt0 (dev_const 200 "5") "hh" "getZHMode" None false None true
    5 0.5%float (Some (λ _, PList [])) w0.

(** A list call that rejects empty answers, on a device that answers null. *)
Definition run_null_rejected : outcome pyval * world :=
  _command rt0 (dev_const 200 "null") "hh" "getCommands" None false (Some TList) true
    5 0.5%float None w0.

(** The final parameters of a call of [command] without parameters under
    [rt0]. *)
Definition params0 (command : string) : gmap string string :=
  <["_" := "1700000000"]> (<["command" := command]> ∅).

(** A device whose first answer is a 500 and which answers 404 from then
    on. *)
Definition dev_late_404 : VZugApi :=
  {| session_get := λ h _ _,
       match h with
       | [] => RespHttp 500 ""
       | _ :: _ => RespHttp 404 ""
       end;
     base_url := "http://oven" |}.

(** The body of a [getProgram] answer with one program, and a runtime whose
    decoder knows it. *)
Definition body_program : string :=
  "[{" +:+ quoted "id" +:+ ":50," +:+ quoted "name" +:+ ":" +:+ quoted "Eco" +:+ "}]".

Definition loads1 (body : string) : option pyval :=
  if decide (body = body_program)
  then Some (PList [PDict {[ "id" := PInt 50; "name" := PStr "Eco" ]}])
  else loads0 body.

Definition rt1 : Runtime :=
  {| time_time := λ _, 1700000000%Z; json_loads := loads1; json_dumps := λ _, "{}" |}.

(** ** Further observations *)

(** The request was answered by a failure that the loop catches whatever
    the call expects of the body: the transport raised a client error, or the
    status is one that [raise_for_status] rejects. *)
Definition request_failed (ev : event) : bool :=
  match ev with
  | EvGet _ _ (RespRaise e) =>
      match except_clause e with
      | Propagate => false
      | _ => true
      end
  | EvGet _ _ (RespHttp status _) => (400 <=? status)%Z
  | EvSleep _ => true
  end.

(** The attempt failed with an exception after which the loop sleeps and
    goes on. *)
Definition attempt_retried (h : response → outcome pyval) (ev : event) : bool :=
  match ev with
  | EvGet _ _ _ =>
      match attempt_exn h ev with
      | Some e =>
          match except_clause e with
          | Retry => true
          | _ => false
          end
      | None => false
      end
  | EvSleep _ => true
  end.

(** The event is not a request, or it is a request to [url] for the command
    [command]. *)
Definition requests (url command : string) (ev : event) : Prop :=
  is_get ev = true → ∃ p resp, ev = EvGet url p resp ∧ p !! "command" = Some command.

(** Whatever the world, the computation [m] only adds events, and the list
    of the events it adds satisfies [P]. *)
Definition adds {A} (P : list event → Prop) (m : M A) : Prop :=
  ∀ w, ∃ t, trace (m w).2 = trace w ++ t ∧ P t.

(** Events that satisfy [P] followed by events that satisfy [Q]. *)
Definition followed_by (P Q : list event → Prop) (t : list event) : Prop :=
  ∃ t1 t2, t = t1 ++ t2 ∧ P t1 ∧ Q t2.

(** The final parameters of a call of [command] whose caller passes the
    parameters [p0], when the clock shows [now]. *)
Definition final_params_of (now : Z) (command : string) (p0 : gmap string string)
  : gmap string string :=
  <["_" := pretty now]> (<["command" := command]> p0).

(** What a call without default does, for the budget [budget] and the
    treatment [h] of the answers: the run [res] from [w] makes at most
    [budget] attempts, and all of them when every attempt is one that the
    loop retries; when every attempt failed it raises the exception of the
    last one; it returns only the value, seen through [proj], of its last
    attempt, which the device answered well; and an attempt that the device
    answers well makes it return that value. *)
Definition write_outcome {A} (h : response → outcome pyval) (budget : nat)
    (proj : pyval → A) (w : world) (res : outcome A * world) : Prop :=
  length (gets (new_events w res.2)) ≤ budget
  ∧ (forallb (attempt_retried h) (new_events w res.2) = true →
     length (gets (new_events w res.2)) = budget)
  ∧ (every_attempt_fails h (new_events w res.2) →
     res.1 = Raise (last_failure h (ValueError "no attempts made")
                      (new_events w res.2)))
  ∧ (∀ a, res.1 = Ok a →
       ∃ u q resp v,
         last (new_events w res.2) = Some (EvGet u q resp)
         ∧ h resp = Ok v ∧ a = proj v)
  ∧ (∀ u q resp v,
       EvGet u q resp ∈ new_events w res.2 → h resp = Ok v → res.1 = Ok (proj v)).

(** * Properties *)

(** ** The retry loop *)

Section LoopRuns.
Context (h : response → outcome pyval) (url : string) (p : gmap string string).

Lemma loop_run_gets_length n d e t x :
  loop_run h url p n d e t x → length (gets t) ≤ n.
Proof. induction 1; simpl; lia. Qed.

Lemma loop_run_sleeps n d e t x :
  loop_run h url p n d e t x →
  ∀ k d', sleeps t !! k = Some d' → d' = Nat.iter k (λ f, f * 2)%float d.
Proof.
  induction 1 as [| | | |n d e resp exc t x _ _ _ IH]; intros k d' Hk;
    try (by destruct k).
  destruct k as [|k]; simpl in Hk.
  - by injection Hk as <-.
  - rewrite Nat.iter_succ_r. by apply IH.
Qed.

Lemma loop_run_shape n d e t x :
  loop_run h url p n d e t x → t `prefix_of` with_backoff (gets t) d.
Proof.
  induction 1 as [| | | |n d e resp exc t x _ _ _ IH]; simpl;
    try (by eexists; simpl).
  by do 2 apply prefix_cons.
Qed.

Lemma loop_run_events n d e t x :
  loop_run h url p n d e t x →
  ∀ ev, ev ∈ t → is_get ev = true → ∃ resp, ev = EvGet url p resp.
Proof.
  induction 1; intros ev Hin Hget; set_unfold in Hin;
    try (destruct Hin as [->|Hin]; [by eauto|]); try done; try (subst; by eauto).
  destruct Hin as [->|Hin]; [done|]. by eauto.
Qed.

Lemma loop_run_all_caught n d e t x :
  loop_run h url p n d e t x →
  every_attempt_caught h t → x = Ok (LoopDone (last_failure h e t)).
Proof.
  unfold every_attempt_caught, last_failure.
  induction 1 as [|n d e resp v Hh|n d e resp exc Hh Hc|n d e resp exc Hh Hc
                 |n d e resp exc t x Hh Hc _ IH]; simpl; rewrite ?Hh, ?Hc; done.
Qed.

Lemma loop_run_all_fail n d e t x :
  loop_run h url p n d e t x →
  every_attempt_fails h t → after_loop None x = Raise (last_failure h e t).
Proof.
  unfold every_attempt_fails, last_failure.
  induction 1 as [|n d e resp v Hh|n d e resp exc Hh Hc|n d e resp exc Hh Hc
                 |n d e resp exc t x Hh Hc _ IH]; simpl; rewrite ?Hh; done.
Qed.

Lemma loop_run_success n d e t x u q resp v :
  loop_run h url p n d e t x →
  EvGet u q resp ∈ t → h resp = Ok v → x = Ok (LoopReturn v).
Proof.
  induction 1 as [|n d e resp' v' Hh|n d e resp' exc Hh Hc|n d e resp' exc Hh Hc
                 |n d e resp' exc t x Hh Hc _ IH]; intros Hin Hv; set_unfold in Hin.
  - done.
  - destruct Hin as [[= -> -> ->]|[]]. congruence.
  - destruct Hin as [[= -> -> ->]|[]]. congruence.
  - destruct Hin as [[= -> -> ->]|[]]. congruence.
  - destruct Hin as [[= -> -> ->]|[[=]|Hin]]; [congruence|]. by apply IH.
Qed.

Lemma loop_run_first_break n d e t x u q resp exc :
  loop_run h url p n d e t x →
  t !! 0%nat = Some (EvGet u q resp) →
  h resp = Raise exc → except_clause exc = Break →
  t = [EvGet u q resp] ∧ x = Ok (LoopDone exc).
Proof.
  destruct 1; simpl; intros [= -> -> ->] Hh Hc; try done;
    (split; [try done|]); congruence.
Qed.

Lemma loop_run_returned n d e t x v :
  loop_run h url p n d e t x →
  after_loop None x = Ok v →
  ∃ resp, last t = Some (EvGet url p resp) ∧ h resp = Ok v.
Proof.
  induction 1 as [|n d e resp v' Hh|n d e resp exc Hh Hc|n d e resp exc Hh Hc
                 |n d e resp exc t x Hh Hc Hrun IH]; simpl; try done.
  - intros [= ->]. by eauto.
  - intros Hx. destruct (IH Hx) as (resp' & Hl & Hv). exists resp'. split; [|done].
    destruct t; [done|]. exact Hl.
Qed.
End LoopRuns.

Section MoreLoopRuns.
Context (h : response → outcome pyval) (url : string) (p : gmap string string).

(** A successful attempt is the last event of the loop. *)
Lemma loop_run_success_last n d e t x u q resp v :
  loop_run h url p n d e t x →
  EvGet u q resp ∈ t → h resp = Ok v → last t = Some (EvGet u q resp).
Proof.
  induction 1 as [|n d e resp' v' Hh|n d e resp' exc Hh Hc|n d e resp' exc Hh Hc
                 |n d e resp' exc t x Hh Hc Hrun IH]; intros Hin Hv; set_unfold in Hin.
  - done.
  - by destruct Hin as [->|[]].
  - destruct Hin as [[= -> -> ->]|[]]. congruence.
  - destruct Hin as [[= -> -> ->]|[]]. congruence.
  - destruct Hin as [[= -> -> ->]|[[=]|Hin]]; [congruence|].
    assert (EvGet u q resp ∈ t) as Hin' by done.
    specialize (IH Hin' Hv). destruct t; [done|]. exact IH.
Qed.

(** An attempt after which the loop breaks is the last event of the loop,
    and its exception is the recorded one. *)
Lemma loop_run_break_last n d e t x u q resp exc :
  loop_run h url p n d e t x →
  EvGet u q resp ∈ t → h resp = Raise exc → except_clause exc = Break →
  last t = Some (EvGet u q resp) ∧ x = Ok (LoopDone exc).
Proof.
  induction 1 as [|n d e resp' v' Hh|n d e resp' exc' Hh Hc|n d e resp' exc' Hh Hc
                 |n d e resp' exc' t x Hh Hc Hrun IH]; intros Hin Hv Hb; set_unfold in Hin.
  - done.
  - destruct Hin as [[= -> -> ->]|[]]. congruence.
  - destruct Hin as [[= -> -> ->]|[]]. split; [done|]. congruence.
  - destruct Hin as [[= -> -> ->]|[]]. congruence.
  - destruct Hin as [[= -> -> ->]|[[=]|Hin]]; [congruence|].
    assert (EvGet u q resp ∈ t) as Hin' by done.
    destruct (IH Hin' Hv Hb) as [Hl ->]. split; [|done].
    destruct t; [done|]. exact Hl.
Qed.

(** When every attempt is one that the loop retries, the loop uses up its
    rounds and sleeps after every attempt, the last one too. *)
Lemma loop_run_all_retried n d e t x :
  loop_run h url p n d e t x →
  forallb (attempt_retried h) t = true →
  length (gets t) = n ∧ t = with_backoff (gets t) d
  ∧ length (sleeps t) = n ∧ x = Ok (LoopDone (last_failure h e t)).
Proof.
  unfold last_failure.
  induction 1 as [|n d e resp v Hh|n d e resp exc Hh Hc|n d e resp exc Hh Hc
                 |n d e resp exc t x Hh Hc _ IH]; simpl; rewrite ?Hh, ?Hc; try done.
  intros Hall. destruct (IH Hall) as (Hn & Ht & Hs & Hx).
  rewrite Hn, Hs, <- Ht. done.
Qed.

(** A loop without rounds does nothing. *)
Lemma loop_run_no_rounds d e t x :
  loop_run h url p 0 d e t x → t = [] ∧ x = Ok (LoopDone e).
Proof. by inversion 1. Qed.

(** What the loop returns came from an attempt; otherwise the value is the
    producer's. *)
Lemma loop_run_value n d e t x voe v :
  loop_run h url p n d e t x →
  after_loop voe x = Ok v →
  (∃ resp, last t = Some (EvGet url p resp) ∧ h resp = Ok v)
  ∨ (∃ producer, voe = Some producer ∧ v = producer tt).
Proof.
  induction 1 as [|n d e resp v' Hh|n d e resp exc Hh Hc|n d e resp exc Hh Hc
                 |n d e resp exc t x Hh Hc Hrun IH]; simpl.
  - destruct voe; [|done]. intros [= <-]. by eauto.
  - intros [= ->]. by eauto.
  - destruct voe; [|done]. intros [= <-]. by eauto.
  - done.
  - intros Hx. destruct (IH Hx) as [(resp' & Hl & Hv)|Hd]; [|by right].
    left. exists resp'. split; [|done]. destruct t; [done|]. exact Hl.
Qed.
End MoreLoopRuns.

(** ** The executor *)

Section Executor.
Context (rt : Runtime) (self : VZugApi).

Lemma once_run url fp raw et re w :
  once rt self url fp raw et re w =
    let p := default ∅ (heap w !! fp) in
    let resp := session_get self (trace w) url p in
    (handle_response rt raw et re resp,
     {| trace := trace w ++ [EvGet url p resp]; heap := heap w |}).
Proof. reflexivity. Qed.

Lemma retry_loop_S url fp raw et re n d e w :
  retry_loop (S n) (once rt self url fp raw et re) d e w =
    let p := default ∅ (heap w !! fp) in
    let resp := session_get self (trace w) url p in
    let w1 := {| trace := trace w ++ [EvGet url p resp]; heap := heap w |} in
    match handle_response rt raw et re resp with
    | Ok v => (Ok (LoopReturn v), w1)
    | Raise exc =>
        match except_clause exc with
        | Break => (Ok (LoopDone exc), w1)
        | Retry =>
            retry_loop n (once rt self url fp raw et re) (d * 2)%float exc
              {| trace := trace w1 ++ [EvSleep d]; heap := heap w |}
        | Propagate => (Raise exc, w1)
        end
    end.
Proof.
  cbn [retry_loop]. unfold bind at 1, try_catch. rewrite once_run. cbv zeta.
  destruct (handle_response _ _ _ _ _) as [v|exc]; [done|].
  by destruct (except_clause exc).
Qed.

Lemma retry_loop_run url fp raw et re n :
  ∀ d e w,
    ∃ t, loop_run (handle_response rt raw et re) url (default ∅ (heap w !! fp))
           n d e t (retry_loop n (once rt self url fp raw et re) d e w).1
         ∧ trace (retry_loop n (once rt self url fp raw et re) d e w).2 = trace w ++ t
         ∧ heap (retry_loop n (once rt self url fp raw et re) d e w).2 = heap w.
Proof.
  induction n as [|n IH]; intros d e w.
  - exists []. simpl. rewrite app_nil_r. split; [apply run_exhausted|done].
  - rewrite retry_loop_S. cbv zeta.
    set (p := default ∅ (heap w !! fp)).
    set (resp := session_get self (trace w) url p).
    destruct (handle_response rt raw et re resp) as [v|exc] eqn:Hh.
    + exists [EvGet url p resp]. split; [by apply run_return|done].
    + destruct (except_clause exc) eqn:Hc.
      * exists [EvGet url p resp]. split; [by apply run_break|done].
      * match goal with
        | |- context [retry_loop n ?a ?d' ?e' ?w'] =>
            destruct (IH d' e' w') as (t & Hrun & Htr & Hhp)
        end.
        cbn [trace heap] in *. fold p in Hrun.
        exists (EvGet url p resp :: EvSleep d :: t).
        split; [by apply run_retry with exc|]. split; [|done].
        rewrite Htr, <- !app_assoc. done.
      * exists [EvGet url p resp]. split; [by apply run_propagate|done].
Qed.

Lemma _command_unfold component command params raw et re attempts d0 voe w :
  _command rt self component command params raw et re attempts d0 voe w =
    let run :=
      retry_loop (Z.to_nat attempts)
        (once rt self (url_join (base_url self) component)
           (prelude rt command params w).1 raw et re)
        d0 (ValueError "no attempts made") (prelude rt command params w).2 in
    (after_loop voe run.1, run.2).
Proof.
  unfold _command, prelude.
  destruct params as [l|]; cbn -[retry_loop pretty fresh];
    unfold bind at 1;
    match goal with
    | |- context [retry_loop ?n ?a ?d ?e ?w'] => destruct (retry_loop n a d e w') as [[[v|exc]|exc] w'']
    end; cbn; try done; by destruct voe.
Qed.

Lemma prelude_trace command params w :
  trace (prelude rt command params w).2 = trace w.
Proof. done. Qed.

Lemma prelude_frame command params w l d :
  heap w !! l = Some d → heap (prelude rt command params w).2 !! l = Some d.
Proof.
  intros Hl. unfold prelude. cbn [fst snd heap].
  set (w1 := match params with None => _ | Some l' => _ end).
  assert (heap w1.2 !! l = Some d) as Hl1.
  { subst w1. destruct params; cbn [snd heap]; [done|].
    rewrite lookup_insert_ne; [done|]. intros <-.
    apply (is_fresh (dom (heap w))), elem_of_dom. by eauto. }
  assert (fresh (dom (heap w1.2)) ≠ l) as Hne.
  { intros <-. apply (is_fresh (dom (heap w1.2))), elem_of_dom. by eauto. }
  by rewrite !lookup_alter_ne, lookup_insert_ne.
Qed.

Lemma prelude_final_params command params w :
  ∃ p0, heap (prelude rt command params w).2 !! (prelude rt command params w).1 =
          Some (<["_" := pretty (time_time rt (trace w))]> (<["command" := command]> p0))
        ∧ ∀ l d, params = Some l → heap w !! l = Some d → p0 = d.
Proof.
  unfold prelude. cbn [fst snd heap]. eexists. split.
  - by rewrite !lookup_alter_eq, lookup_insert_eq.
  - intros l d -> Hl. cbn [fst snd]. by rewrite Hl.
Qed.

Lemma new_events_app w w' t : trace w' = trace w ++ t → new_events w w' = t.
Proof. unfold new_events. intros ->. by rewrite drop_app_length. Qed.

(** Every call of [_command] is a run of the retry loop, on the final
    parameters, followed by the code after the loop; it leaves the
    dictionaries that were in the store as they were. *)
Lemma _command_run component command params raw et re attempts d0 voe w :
  let res := _command rt self component command params raw et re attempts d0 voe w in
  ∃ p0 x,
    res.1 = after_loop voe x
    ∧ trace res.2 = trace w ++ new_events w res.2
    ∧ loop_run (handle_response rt raw et re) (url_join (base_url self) component)
        (<["_" := pretty (time_time rt (trace w))]> (<["command" := command]> p0))
        (Z.to_nat attempts) d0 (ValueError "no attempts made") (new_events w res.2) x
    ∧ (∀ l d, params = Some l → heap w !! l = Some d → p0 = d)
    ∧ ∀ l d, heap w !! l = Some d → heap res.2 !! l = Some d.
Proof.
  intros res. subst res. rewrite _command_unfold. cbv zeta. cbn [fst snd].
  destruct (retry_loop_run (url_join (base_url self) component)
              (prelude rt command params w).1 raw et re (Z.to_nat attempts) d0
              (ValueError "no attempts made") (prelude rt command params w).2)
    as (t & Hrun & Htr & Hhp).
  destruct (prelude_final_params command params w) as (p0 & Hp & Hp0).
  rewrite Hp in Hrun. cbn [default from_option id] in Hrun.
  rewrite prelude_trace in Htr. rewrite (new_events_app _ _ _ Htr).
  exists p0. eexists. split; [done|]. split; [done|].
  split; [exact Hrun|]. split; [done|].
  intros l d Hl. rewrite Hhp. by apply prelude_frame.
Qed.
End Executor.

(** ** What the executor returns and raises *)

(** C1, as the code has it: when a default-value producer is supplied and
    every attempt of the call fails with an exception that the loop has an
    [except] clause for (an HTTP status error, another client error, a failed
    assertion), [_command] returns the producer's value and raises nothing;
    when no producer is supplied and every attempt fails, it raises the
    exception of the last attempt (the initial [ValueError] when no attempt
    was made). *)
Theorem command_default_or_last_failure
    rt self component command params raw et re attempts d0 w :
  (∀ producer,
     every_attempt_caught (handle_response rt raw et re)
       (new_events w
          (_command rt self component command params raw et re attempts d0
             (Some producer) w).2) →
     (_command rt self component command params raw et re attempts d0
        (Some producer) w).1 = Ok (producer tt))
  ∧ (every_attempt_fails (handle_response rt raw et re)
       (new_events w
          (_command rt self component command params raw et re attempts d0 None w).2) →
     (_command rt self component command params raw et re attempts d0 None w).1 =
       Raise (last_failure (handle_response rt raw et re)
                (ValueError "no attempts made")
                (new_events w
                   (_command rt self component command params raw et re attempts d0
                      None w).2))).
Proof.
  split.
  - intros producer Hall.
    destruct (_command_run rt self component command params raw et re attempts d0
                (Some producer) w) as (p0 & x & Hres & _ & Hrun & _).
    rewrite Hres. by rewrite (loop_run_all_caught _ _ _ _ _ _ _ _ Hrun Hall).
  - intros Hall.
    destruct (_command_run rt self component command params raw et re attempts d0
                None w) as (p0 & x & Hres & _ & Hrun & _).
    rewrite Hres. by apply (loop_run_all_fail _ _ _ _ _ _ _ _ Hrun).
Qed.

(** C2: when the first attempt of a call of [_command] fails with an HTTP
    status of the trusted set, that attempt is all the call does: no second
    attempt and no sleep.  So [get_mac_address] with [default_on_error=True],
    on a device that answers 404, returns the empty string after exactly one
    attempt. *)
Theorem trusted_status_single_attempt rt self w :
  (∀ component command params raw et re attempts d0 voe u q resp status,
     new_events w
       (_command rt self component command params raw et re attempts d0 voe w).2
       !! 0%nat = Some (EvGet u q resp) →
     handle_response rt raw et re resp = Raise (ClientResponseError status) →
     status ∈ _TRUSTED_STATUS_CODES →
     new_events w
       (_command rt self component command params raw et re attempts d0 voe w).2
       = [EvGet u q resp])
  ∧ (∀ u q body,
       new_events w (get_mac_address rt self true w).2 !! 0%nat
         = Some (EvGet u q (RespHttp 404 body)) →
       (get_mac_address rt self true w).1 = Ok (PStr "")
       ∧ new_events w (get_mac_address rt self true w).2
         = [EvGet u q (RespHttp 404 body)]).
Proof.
  split.
  - intros component command params raw et re attempts d0 voe u q resp status H0 Hh Hst.
    destruct (_command_run rt self component command params raw et re attempts d0
                voe w) as (p0 & x & _ & _ & Hrun & _).
    eapply loop_run_first_break; [exact Hrun|exact H0|exact Hh|].
    simpl. by rewrite bool_decide_eq_true_2.
  - intros u q body H0. unfold get_mac_address in *.
    destruct (_command_run rt self "ai" "getMacAddress" None true None false
                default_attempts default_retry_delay (producer_if true (PStr "")) w)
      as (p0 & x & Hres & _ & Hrun & _).
    destruct (loop_run_first_break _ _ _ _ _ _ _ _ _ _ _ (ClientResponseError 404)
                Hrun H0) as [Ht Hx]; [done|done|].
    by rewrite Hres, Hx.
Qed.

(** C3: a call of [_command] issues at most [attempts] HTTP attempts (none
    when [attempts] is not positive); its events are its attempts, each
    followed by its backoff sleep, the sleep after the last one possibly
    missing; the first delay slept is the initial retry delay and every
    later one is exactly the double of the one before. *)
Theorem attempts_bounded_delays_double
    rt self component command params raw et re attempts d0 voe w :
  (Z.of_nat
     (length
        (gets
           (new_events w
              (_command rt self component command params raw et re attempts d0 voe
                 w).2)))
   ≤ Z.max 0 attempts)%Z
  ∧ new_events w
      (_command rt self component command params raw et re attempts d0 voe w).2
    `prefix_of`
    with_backoff
      (gets
         (new_events w
            (_command rt self component command params raw et re attempts d0 voe w).2))
      d0
  ∧ (∀ d,
       sleeps
         (new_events w
            (_command rt self component command params raw et re attempts d0 voe w).2)
         !! 0%nat = Some d →
       d = d0)
  ∧ (∀ k d d',
       sleeps
         (new_events w
            (_command rt self component command params raw et re attempts d0 voe w).2)
         !! k = Some d →
       sleeps
         (new_events w
            (_command rt self component command params raw et re attempts d0 voe w).2)
         !! S k = Some d' →
       d' = (d * 2)%float).
Proof.
  destruct (_command_run rt self component command params raw et re attempts d0
              voe w) as (p0 & x & _ & _ & Hrun & _).
  split; [|split; [|split]].
  - apply loop_run_gets_length in Hrun. lia.
  - by eapply loop_run_shape.
  - intros d Hd. by apply (loop_run_sleeps _ _ _ _ _ _ _ _ Hrun 0%nat).
  - intros k d d' Hk HSk.
    rewrite (loop_run_sleeps _ _ _ _ _ _ _ _ Hrun _ _ Hk).
    by rewrite (loop_run_sleeps _ _ _ _ _ _ _ _ Hrun _ _ HSk).
Qed.

(** C6, as the code has it: in a call of [_command] that is not raw, expects
    a list and does not reject empty answers, an attempt whose body decodes
    to JSON null makes the call return the empty list. *)
Theorem null_body_is_empty_list
    rt self component command params attempts d0 voe w u q status body :
  EvGet u q (RespHttp status body)
    ∈ new_events w
        (_command rt self component command params false (Some TList) false
           attempts d0 voe w).2 →
  (status < 400)%Z →
  json_loads rt body = Some PNone →
  (_command rt self component command params false (Some TList) false
     attempts d0 voe w).1 = Ok (PList []).
Proof.
  intros Hin Hst Hnull.
  destruct (_command_run rt self component command params false (Some TList) false
              attempts d0 voe w) as (p0 & x & Hres & _ & Hrun & _).
  rewrite Hres.
  rewrite (loop_run_success _ _ _ _ _ _ _ _ _ _ _ (PList []) Hrun Hin); [done|].
  simpl. destruct (Z.leb_spec 400 status); [lia|]. by rewrite Hnull.
Qed.

(** C9: [get_zh_mode], with [default_on_error] set or not, raises
    [KeyError] when an attempt is answered with a JSON object that has no
    ["value"] entry: the answer passes the executor, whose default is for
    failed requests only, and the lookup after it fails. *)
Theorem zh_mode_without_value_raises
    rt self default_on_error w u q status body o :
  EvGet u q (RespHttp status body)
    ∈ new_events w (get_zh_mode rt self default_on_error w).2 →
  (status < 400)%Z →
  json_loads rt body = Some (PDict o) →
  o !! "value" = None →
  (get_zh_mode rt self default_on_error w).1 = Raise (KeyError "value").
Proof.
  unfold get_zh_mode, bind at 1 2. intros Hin Hst Hbody Hval.
  destruct (_command_run rt self "hh" "getZHMode" None false (Some TDict) false
              default_attempts default_retry_delay
              (producer_if default_on_error (PDict {[ "value" := PInt (-1) ]})) w)
    as (p0 & x & Hres & _ & Hrun & _).
  destruct (_command _ _ _ _ _ _ _ _ _ _ _ w) as [r w'] eqn:Hc.
  cbn [fst snd] in *.
  assert (new_events w (match r with
                        | Ok a => lift (py_getitem a "value") w'
                        | Raise e => (Raise e, w')
                        end).2 = new_events w w') as Hev by (by destruct r).
  rewrite Hev in Hin.
  assert (handle_response rt false (Some TDict) false (RespHttp status body)
            = Ok (PDict o)) as Hh.
  { simpl. destruct (Z.leb_spec 400 status); [lia|]. by rewrite Hbody. }
  rewrite (loop_run_success _ _ _ _ _ _ _ _ _ _ _ _ Hrun Hin Hh) in Hres.
  simpl in Hres. subst r. unfold lift. simpl. by rewrite Hval.
Qed.

(** C10: a call of [_command] with a parameter dictionary of the caller
    leaves that dictionary as it was (and every other dictionary of the
    store); the requests it sends carry the caller's parameters together
    with the [command] and [_] entries, which went into the copy. *)
Theorem command_leaves_params_unchanged
    rt self component command l d raw et re attempts d0 voe w :
  heap w !! l = Some d →
  heap (_command rt self component command (Some l) raw et re attempts d0 voe w).2
    !! l = Some d
  ∧ (∀ l' d', heap w !! l' = Some d' →
       heap (_command rt self component command (Some l) raw et re attempts d0 voe
               w).2 !! l' = Some d')
  ∧ Forall (λ ev, ∃ resp,
              ev = EvGet (url_join (base_url self) component)
                     (<["_" := pretty (time_time rt (trace w))]>
                        (<["command" := command]> d)) resp)
      (gets
         (new_events w
            (_command rt self component command (Some l) raw et re attempts d0 voe
               w).2)).
Proof.
  intros Hl.
  destruct (_command_run rt self component command (Some l) raw et re attempts d0
              voe w) as (p0 & x & _ & _ & Hrun & Hp0 & Hframe).
  rewrite (Hp0 l d eq_refl Hl) in Hrun.
  split; [by apply Hframe|]. split; [exact Hframe|].
  apply Forall_forall. intros ev Hin. apply list_elem_of_In in Hin.
  unfold gets in Hin. apply filter_In in Hin as [Hin Hget].
  apply list_elem_of_In in Hin.
  by apply (loop_run_events _ _ _ _ _ _ _ _ Hrun).
Qed.

(** ** Program construction *)

Lemma extract_fold_info keys :
  ∀ (i o : gmap string pyval) k,
    (foldl Program.extract (i, o) keys).1 !! k =
      if decide (k ∈ keys) then
        match o !! k with
        | Some v => Some v
        | None => i !! k
        end
      else i !! k.
Proof.
  induction keys as [|key keys IH]; intros i o k; cbn [foldl].
  - by rewrite decide_False by set_solver.
  - unfold Program.extract at 2. cbn [fst snd].
    destruct (o !! key) as [v|] eqn:Hkey; rewrite IH.
    + destruct (decide (k = key)) as [->|Hne].
      * rewrite lookup_delete_eq, lookup_insert_eq, Hkey.
        rewrite (decide_True (P := key ∈ key :: keys)) by set_solver.
        by destruct (decide (key ∈ keys)).
      * rewrite lookup_delete_ne, lookup_insert_ne by done.
        destruct (decide (k ∈ keys)).
        -- by rewrite decide_True by set_solver.
        -- by rewrite decide_False by set_solver.
    + destruct (decide (k = key)) as [->|Hne].
      * rewrite Hkey. by destruct (decide (key ∈ keys)), (decide (key ∈ key :: keys)).
      * destruct (decide (k ∈ keys)).
        -- by rewrite decide_True by set_solver.
        -- by rewrite decide_False by set_solver.
Qed.

Lemma extract_fold_options keys :
  ∀ (i o : gmap string pyval) k,
    (foldl Program.extract (i, o) keys).2 !! k =
      if decide (k ∈ keys) then None else o !! k.
Proof.
  induction keys as [|key keys IH]; intros i o k; cbn [foldl].
  - by rewrite decide_False by set_solver.
  - unfold Program.extract at 2. cbn [fst snd].
    destruct (o !! key) as [v|] eqn:Hkey; rewrite IH.
    + destruct (decide (k = key)) as [->|Hne].
      * rewrite lookup_delete_eq.
        rewrite (decide_True (P := key ∈ key :: keys)) by set_solver.
        by destruct (decide (key ∈ keys)).
      * rewrite lookup_delete_ne by done.
        destruct (decide (k ∈ keys)).
        -- by rewrite decide_True by set_solver.
        -- by rewrite decide_False by set_solver.
    + destruct (decide (k = key)) as [->|Hne].
      * rewrite Hkey. by destruct (decide (key ∈ keys)), (decide (key ∈ key :: keys)).
      * destruct (decide (k ∈ keys)).
        -- by rewrite decide_True by set_solver.
        -- by rewrite decide_False by set_solver.
Qed.

Lemma build_over_info keys raw k :
  Program.info (Program.build_over keys raw) !! k =
    if decide (k ∈ keys) then raw !! k else None.
Proof.
  unfold Program.build_over. simpl. rewrite extract_fold_info, lookup_empty.
  destruct (decide (k ∈ keys)); [|done]. by destruct (raw !! k).
Qed.

Lemma build_over_options keys raw k :
  Program.options (Program.build_over keys raw) !! k =
    if decide (k ∈ keys) then None else raw !! k.
Proof. unfold Program.build_over. simpl. by rewrite extract_fold_options. Qed.

(** The order in which the key set is iterated does not matter. *)
Lemma build_over_perm keys keys' raw :
  keys ≡ₚ keys' → Program.build_over keys raw = Program.build_over keys' raw.
Proof.
  intros Hp.
  assert (∀ k, k ∈ keys ↔ k ∈ keys') as Hin by (intros k; by rewrite Hp).
  destruct (Program.build_over keys raw) as [i o] eqn:H1.
  destruct (Program.build_over keys' raw) as [i' o'] eqn:H2.
  f_equal; apply map_eq; intros k.
  - pose proof (build_over_info keys raw k) as E1.
    pose proof (build_over_info keys' raw k) as E2.
    rewrite H1 in E1. rewrite H2 in E2. simpl in *. rewrite E1, E2.
    destruct (decide (k ∈ keys)), (decide (k ∈ keys')); naive_solver.
  - pose proof (build_over_options keys raw k) as E1.
    pose proof (build_over_options keys' raw k) as E2.
    rewrite H1 in E1. rewrite H2 in E2. simpl in *. rewrite E1, E2.
    destruct (decide (k ∈ keys)), (decide (k ∈ keys')); naive_solver.
Qed.

(** C7: [Program.build] puts into [info] exactly the input keys that are
    in the ProgramInfo key set and into [options] exactly the other input
    keys, each with the value it has in the input; the two parts share no
    key, and together they have the keys of the input (and are the input). *)
Theorem build_partition (raw : gmap string pyval) :
  dom (Program.info (Program.build raw)) = dom raw ∩ list_to_set ProgramInfo_keys
  ∧ dom (Program.options (Program.build raw)) = dom raw ∖ list_to_set ProgramInfo_keys
  ∧ dom (Program.info (Program.build raw)) ## dom (Program.options (Program.build raw))
  ∧ dom (Program.info (Program.build raw)) ∪ dom (Program.options (Program.build raw))
    = dom raw
  ∧ Program.info (Program.build raw) ∪ Program.options (Program.build raw) = raw.
Proof.
  assert (∀ k, k ∈ dom (Program.info (Program.build raw))
               ↔ k ∈ dom raw ∧ k ∈ ProgramInfo_keys) as Hi.
  { intros k. rewrite !elem_of_dom. unfold Program.build. rewrite build_over_info.
    destruct (decide (k ∈ ProgramInfo_keys)); [naive_solver|].
    split; [by intros [? ?]|naive_solver]. }
  assert (∀ k, k ∈ dom (Program.options (Program.build raw))
               ↔ k ∈ dom raw ∧ k ∉ ProgramInfo_keys) as Ho.
  { intros k. rewrite !elem_of_dom. unfold Program.build. rewrite build_over_options.
    destruct (decide (k ∈ ProgramInfo_keys)); [|naive_solver].
    split; [by intros [? ?]|naive_solver]. }
  repeat split.
  - apply set_eq. intros k. rewrite Hi. set_solver.
  - apply set_eq. intros k. rewrite Ho. set_solver.
  - intros k Hk1 Hk2. apply Hi in Hk1. apply Ho in Hk2. naive_solver.
  - apply set_eq. intros k. rewrite elem_of_union, Hi, Ho.
    destruct (decide (k ∈ ProgramInfo_keys)); naive_solver.
  - apply map_eq. intros k. rewrite lookup_union. unfold Program.build.
    rewrite build_over_info, build_over_options.
    destruct (decide (k ∈ ProgramInfo_keys)); by destruct (raw !! k).
Qed.

(** ** The order of the requests of the state aggregate *)

Section Emits.
Context {A B : Type} (φ : event → Prop).

Lemma emits_ret (a : A) : emits φ (ret a).
Proof. intros w. exists []. by rewrite app_nil_r. Qed.

Lemma emits_lift (r : outcome A) : emits φ (lift r).
Proof. intros w. exists []. by rewrite app_nil_r. Qed.

Lemma emits_bind (m : M A) (k : A → M B) :
  emits φ m → (∀ a, emits φ (k a)) → emits φ (bind m k).
Proof.
  intros Hm Hk w. unfold bind.
  destruct (Hm w) as (t1 & Ht1 & Hφ1).
  destruct (m w) as [[a|e] w1]; cbn [snd] in *.
  - destruct (Hk a w1) as (t2 & Ht2 & Hφ2).
    exists (t1 ++ t2). split; [by rewrite Ht2, Ht1, app_assoc|].
    by apply Forall_app.
  - by exists t1.
Qed.

Lemma emits_mono (ψ : event → Prop) (m : M A) :
  (∀ ev, ψ ev → φ ev) → emits ψ m → emits φ m.
Proof.
  intros Himp Hm w. destruct (Hm w) as (t & Ht & Hψ).
  exists t. split; [done|]. by eapply Forall_impl.
Qed.
End Emits.

Lemma emits_dict_new φ d : emits φ (dict_new d).
Proof. intros w. exists []. by rewrite app_nil_r. Qed.

Lemma emits_get_time φ rt : emits φ (get_time rt).
Proof. intros w. exists []. by rewrite app_nil_r. Qed.

Lemma sends_mono cmds cmds' ev :
  cmds ⊆ cmds' → sends cmds ev → sends cmds' ev.
Proof. intros Hsub Hs Hget. destruct (Hs Hget) as (c & Hc & Hin). by eauto. Qed.

Lemma emits_command rt self component command params raw et re attempts d0 voe :
  emits (sends [command])
    (_command rt self component command params raw et re attempts d0 voe).
Proof.
  intros w.
  destruct (_command_run rt self component command params raw et re attempts d0
              voe w) as (p0 & x & _ & Htr & Hrun & _).
  eexists. split; [exact Htr|].
  apply Forall_forall. intros ev Hin Hget.
  destruct (loop_run_events _ _ _ _ _ _ _ _ Hrun ev Hin Hget) as [resp ->].
  exists command. split; [|set_solver]. simpl.
  by rewrite lookup_insert_ne, lookup_insert_eq.
Qed.

Lemma emits_get_zh_mode rt self default_on_error :
  emits (sends ["getZHMode"]) (get_zh_mode rt self default_on_error).
Proof.
  apply emits_bind; [apply emits_command|]. intros a. apply emits_lift.
Qed.

(** C8: the events of [aggregate_state] are the events of its ZH-mode
    fetch, which sends [getZHMode] requests only, followed by events in which
    only the other three commands are requested: every request of the ZH-mode
    fetch, and so its completion, comes before any request of another
    sub-fetch. *)
Theorem zh_mode_fetch_first rt self default_on_error w :
  ∃ rest,
    new_events w (aggregate_state rt self default_on_error w).2
      = new_events w (get_zh_mode rt self true w).2 ++ rest
    ∧ Forall (sends ["getZHMode"]) (new_events w (get_zh_mode rt self true w).2)
    ∧ Forall (sends ["getDeviceStatus"; "getLastPUSHNotifications"; "getEcoInfo"]) rest.
Proof.
  unfold aggregate_state, bind at 1.
  destruct (emits_get_zh_mode rt self true w) as (t1 & Ht1 & Hzh).
  destruct (get_zh_mode rt self true w) as [[zh|e] w1]; cbn [snd] in *.
  - match goal with
    | |- context [new_events w (?k w1).2] =>
        assert (emits (sends ["getDeviceStatus"; "getLastPUSHNotifications";
                              "getEcoInfo"]) k) as Hk
    end.
    { unfold get_device_status, get_last_push_notifications, get_eco_info.
      apply emits_bind.
      { eapply emits_mono; [|apply emits_command]. intros ev. apply sends_mono. set_solver. }
      intros dev. apply emits_bind; [apply emits_get_time|].
      intros now. apply emits_bind.
      { eapply emits_mono; [|apply emits_command]. intros ev. apply sends_mono. set_solver. }
      intros ns. apply emits_bind.
      { eapply emits_mono; [|apply emits_command]. intros ev. apply sends_mono. set_solver. }
      intros eco. apply emits_ret. }
    destruct (Hk w1) as (t2 & Ht2 & Hrest).
    exists t2. rewrite (new_events_app w w1 t1 Ht1).
    split; [|done]. apply new_events_app. by rewrite Ht2, Ht1, app_assoc.
  - exists []. rewrite app_nil_r. by rewrite (new_events_app w w1 t1 Ht1).
Qed.

(** ** Write operations *)

Lemma command_surfaces rt self component command params raw et re attempts d0 w :
  surfaces (handle_response rt raw et re) (Z.to_nat attempts) w
    (_command rt self component command params raw et re attempts d0 None w).
Proof.
  destruct (_command_run rt self component command params raw et re attempts d0
              None w) as (p0 & x & Hres & _ & Hrun & _).
  split; [|split].
  - by eapply loop_run_gets_length.
  - intros Hall. rewrite Hres. eexists. by eapply loop_run_all_fail.
  - intros a Ha. rewrite Hres in Ha.
    destruct (loop_run_returned _ _ _ _ _ _ _ _ _ Hrun Ha) as (resp & Hl & Hv).
    by eauto 6.
Qed.

Lemma surfaces_void h budget w (m : M pyval) :
  surfaces h budget w (m w) → surfaces h budget w ((m ;; ret tt) w).
Proof.
  unfold surfaces, bind, ret. destruct (m w) as [[v|e] w']; cbn [fst snd].
  - intros (Hn & Hf & Hr). split; [done|]. split.
    + intros Hall. by destruct (Hf Hall).
    + intros _ _. by apply (Hr v).
  - intros (Hn & Hf & Hr). split; [done|]. split; [by eauto|done].
Qed.

Lemma surfaces_dict_new {A} h budget w d (k : nat → M A) :
  (∀ l w1, trace w1 = trace w → surfaces h budget w1 (k l w1)) →
  surfaces h budget w ((l <- dict_new d ;; k l) w).
Proof.
  intros Hk. unfold bind, dict_new.
  match goal with
  | |- surfaces _ _ _ (k ?l ?w1) => specialize (Hk l w1 eq_refl)
  end.
  exact Hk.
Qed.

Lemma command_write_outcome rt self component command params raw et re attempts d0 w :
  write_outcome (handle_response rt raw et re) (Z.to_nat attempts) id w
    (_command rt self component command params raw et re attempts d0 None w).
Proof.
  destruct (_command_run rt self component command params raw et re attempts d0
              None w) as (p0 & x & Hres & _ & Hrun & _).
  split; [|split; [|split; [|split]]].
  - by eapply loop_run_gets_length.
  - intros Hall. by destruct (loop_run_all_retried _ _ _ _ _ _ _ _ Hrun Hall).
  - intros Hall. rewrite Hres. by eapply loop_run_all_fail.
  - intros a Ha. rewrite Hres in Ha.
    destruct (loop_run_returned _ _ _ _ _ _ _ _ _ Hrun Ha) as (resp & Hl & Hv).
    by eauto 8.
  - intros u q resp v Hin Hv. rewrite Hres.
    by rewrite (loop_run_success _ _ _ _ _ _ _ _ _ _ _ _ Hrun Hin Hv).
Qed.

Lemma command_write_outcome_for rt self component command params raw et re attempts
    d0 w (budget : nat) :
  budget = Z.to_nat attempts →
  write_outcome (handle_response rt raw et re) budget id w
    (_command rt self component command params raw et re attempts d0 None w).
Proof. intros ->. apply command_write_outcome. Qed.

Lemma write_outcome_void h budget w (m : M pyval) :
  write_outcome h budget id w (m w) →
  write_outcome h budget (λ _, tt) w ((m ;; ret tt) w).
Proof.
  unfold write_outcome, bind, ret. destruct (m w) as [[v|e] w']; cbn [fst snd].
  - intros (Hn & Hb & Hf & Hr & Hs). split; [done|]. split; [done|]. split; [|split].
    + intros Hall. by specialize (Hf Hall).
    + intros [] _. destruct (Hr v eq_refl) as (u & q & resp & v' & Hl & Hv & _).
      by eauto 8.
    + intros u q resp v' Hin Hv. by specialize (Hs u q resp v' Hin Hv).
  - intros (Hn & Hb & Hf & Hr & Hs). split; [done|]. split; [done|]. split; [|split].
    + intros Hall. specialize (Hf Hall). by injection Hf as <-.
    + done.
    + intros u q resp v' Hin Hv. by specialize (Hs u q resp v' Hin Hv).
Qed.

Lemma write_outcome_dict_new {A} h budget (proj : pyval → A) w d (k : nat → M A) :
  (∀ l w1, trace w1 = trace w → write_outcome h budget proj w1 (k l w1)) →
  write_outcome h budget proj w ((l <- dict_new d ;; k l) w).
Proof.
  intros Hk. unfold bind, dict_new.
  match goal with
  | |- write_outcome _ _ _ _ (k ?l ?w1) => specialize (Hk l w1 eq_refl)
  end.
  exact Hk.
Qed.

(** C5, as the code has it: [set_command], [do_command_action] and
    [set_program] have an attempt budget of 2, [do_ai_update] and
    [do_hhg_update] the default budget of 5: they never make more attempts,
    and they make exactly that many when every attempt fails with an
    exception that the loop retries.  None of the five has a default value:
    when all its attempts failed, each of them raises the exception of the
    last attempt; each returns only after an attempt that the device answered
    well, which is then its last event, and [set_program] returns the text of
    that answer; and an attempt that the device answers well makes the call
    return. *)
Theorem write_failures_surface rt self w :
  (∀ command value,
     write_outcome (handle_response rt true None false) 2 (λ _, tt) w
       (set_command rt self command value w))
  ∧ (∀ command,
       write_outcome (handle_response rt true None false) 2 (λ _, tt) w
         (do_command_action rt self command w))
  ∧ (∀ program_id options,
       write_outcome (handle_response rt true None false) 2 id w
         (set_program rt self program_id options w))
  ∧ write_outcome (handle_response rt false None false) 5 (λ _, tt) w
      (do_ai_update rt self w)
  ∧ write_outcome (handle_response rt false None false) 5 (λ _, tt) w
      (do_hhg_update rt self w).
Proof.
  split; [|split; [|split; [|split]]].
  - intros command value. unfold set_command. apply write_outcome_dict_new.
    intros l w1 _. apply write_outcome_void.
    eapply command_write_outcome_for. reflexivity.
  - intros command. unfold do_command_action. apply write_outcome_void.
    eapply command_write_outcome_for. reflexivity.
  - intros program_id options. unfold set_program. apply write_outcome_dict_new.
    intros l w1 _.
    eapply command_write_outcome_for. reflexivity.
  - unfold do_ai_update. apply write_outcome_void.
    eapply command_write_outcome_for. reflexivity.
  - unfold do_hhg_update. apply write_outcome_void.
    eapply command_write_outcome_for. reflexivity.
Qed.

(** ** The configuration aggregate *)

(** The body of the loop of [aggregate_config] raises whatever the device
    does: unpacking the pending future of the [gather] that was not awaited
    yields the future and then raises. *)
Lemma aggregate_category_raises rt self config_tree category_key w :
  aggregate_category rt self config_tree category_key w
    = (Raise (RuntimeError "await wasn't used with future"), w).
Proof. reflexivity. Qed.

Lemma as_strs_map_PStr ks : as_strs (map PStr ks) = Ok ks.
Proof. induction ks as [|k ks IH]; [done|]. simpl. by rewrite IH. Qed.

(** So [aggregate_config] raises as soon as the device has a category. *)
Lemma aggregate_config_raises rt self w k ks :
  (list_categories rt self w).1 = Ok (PList (map PStr (k :: ks))) →
  (aggregate_config rt self w).1
    = Raise (RuntimeError "await wasn't used with future").
Proof.
  unfold aggregate_config, bind at 1. intros Hl.
  destruct (list_categories rt self w) as [r w']. cbn [fst] in Hl. subst r.
  unfold bind at 1, lift, iter_strs. rewrite as_strs_map_PStr.
  cbn [for_each]. unfold bind at 1. by rewrite aggregate_category_raises.
Qed.

(** Without categories there is no round of the loop, and the tree is
    empty. *)
Example aggregate_config_no_categories :
  (aggregate_config rt0 (dev_const 200 "[]") w0).1 = Ok ∅.
Proof. vm_compute. reflexivity. Qed.

(** C4, on the code: for the device with the categories [c1] (command [x])
    and [c2] (no command), [aggregate_config] does not return a tree; it
    raises [RuntimeError] in the first round of its loop, after the single
    request for the category list. *)
Theorem aggregate_config_two_categories :
  (aggregate_config rt0 dev_two_categories w0).1
    = Raise (RuntimeError "await wasn't used with future")
  ∧ length (gets (new_events w0 (aggregate_config rt0 dev_two_categories w0).2)) = 1%nat.
Proof. vm_compute. done. Qed.

(** ** The theorems at work on concrete devices *)

Lemma command_default_or_last_failure_witness :
  (_command rt0 (dev_const 500 "") "ai" "getDeviceStatus" None false (Some TDict) false
     5 0.5%float (Some (λ _, PDict ∅)) w0).1 = Ok (PDict ∅)
  ∧ (_command rt0 (dev_const 500 "") "ai" "getDeviceStatus" None false (Some TDict) false
       5 0.5%float None w0).1 = Raise (ClientResponseError 500).
Proof.
  split.
  - apply (proj1 (command_default_or_last_failure rt0 (dev_const 500 "") "ai"
                    "getDeviceStatus" None false (Some TDict) false 5 0.5%float w0)
             (λ _, PDict ∅)).
    vm_compute. reflexivity.
  - etrans.
    + apply (proj2 (command_default_or_last_failure rt0 (dev_const 500 "") "ai"
                      "getDeviceStatus" None false (Some TDict) false 5 0.5%float w0)).
      vm_compute. reflexivity.
    + vm_compute. reflexivity.
Defined.

(** C1 does not hold for every failure of an attempt: here a producer is
    supplied and the one attempt fails, with the [TypeError] of [len] on a
    number, for which the loop has no [except] clause; the call raises it
    and the producer is not asked. *)
Lemma command_default_counterexample :
  every_attempt_fails (handle_response rt0 false None true) (new_events w0 run_unsized.2)
  ∧ length (gets (new_events w0 run_unsized.2)) = 1%nat
  ∧ run_unsized.1 = Raise (TypeError "object has no len()")
  ∧ run_unsized.1 ≠ Ok (PList []).
Proof. vm_compute. repeat split; done. Qed.

(** The same happens in [get_device_status] with [default_on_error=True]
    when the body of the answer is not JSON. *)
Example get_device_status_not_json :
  (get_device_status rt0 (dev_const 200 "<html>") true w0).1 = Raise JSONDecodeError.
Proof. vm_compute. reflexivity. Qed.

(** A failure that the loop retries: the 500 of [dev_flaky] is followed by
    the first backoff sleep, and the second answer is returned. *)
Example get_device_status_recovers :
  (get_device_status rt0 (dev_flaky "{}") false w0).1 = Ok (PDict ∅)
  ∧ length (gets (new_events w0 (get_device_status rt0 (dev_flaky "{}") false w0).2))
    = 2%nat
  ∧ sleeps (new_events w0 (get_device_status rt0 (dev_flaky "{}") false w0).2)
    = [0.5%float].
Proof. vm_compute. repeat split; reflexivity. Qed.

Lemma trusted_status_single_attempt_witness :
  (get_mac_address rt0 (dev_const 404 "") true w0).1 = Ok (PStr "")
  ∧ new_events w0 (get_mac_address rt0 (dev_const 404 "") true w0).2
    = [EvGet "http://oven/ai" (params0 "getMacAddress") (RespHttp 404 "")].
Proof.
  apply (proj2 (trusted_status_single_attempt rt0 (dev_const 404 "") w0)
           "http://oven/ai" (params0 "getMacAddress") "").
  vm_compute. reflexivity.
Defined.

Lemma attempts_bounded_delays_double_witness :
  sleeps (new_events w0 (do_ai_update rt0 (dev_const 500 "") w0).2) !! 2%nat
    = Some 2%float
  ∧ 2%float = (1 * 2)%float.
Proof.
  split; [vm_compute; reflexivity|].
  apply (proj2 (proj2 (proj2
           (attempts_bounded_delays_double rt0 (dev_const 500 "") "ai" "doAIUpdate"
              None false None false 5 0.5%float None w0))) 1%nat 1%float 2%float);
    vm_compute; reflexivity.
Defined.

Lemma write_failures_surface_witness :
  length (gets (new_events w0 (set_command rt0 (dev_const 500 "") "Light" "on" w0).2))
    = 2%nat
  ∧ (set_command rt0 (dev_const 500 "") "Light" "on" w0).1
    = Raise (last_failure (handle_response rt0 true None false)
               (ValueError "no attempts made")
               (new_events w0 (set_command rt0 (dev_const 500 "") "Light" "on" w0).2))
  ∧ length (gets (new_events w0 (do_ai_update rt0 (dev_const 500 "") w0).2)) = 5%nat
  ∧ (set_program rt0 (dev_const 200 "ok") 50 None w0).1 = Ok (PStr "ok").
Proof.
  split; [|split; [|split]].
  - apply (proj1 (proj2 (proj1 (write_failures_surface rt0 (dev_const 500 "") w0)
                           "Light" "on"))).
    vm_compute. reflexivity.
  - apply (proj1 (proj2 (proj2 (proj1 (write_failures_surface rt0 (dev_const 500 "")
                                         w0) "Light" "on")))).
    vm_compute. reflexivity.
  - apply (proj1 (proj2 (proj1 (proj2 (proj2 (proj2
             (write_failures_surface rt0 (dev_const 500 "") w0))))))).
    vm_compute. reflexivity.
  - apply (proj2 (proj2 (proj2 (proj2
             (proj1 (proj2 (proj2 (write_failures_surface rt0 (dev_const 200 "ok") w0)))
                50%Z None))))
             "http://oven/hh"
             (final_params_of 1700000000 "setProgram" {[ "value" := "{}" ]})
             (RespHttp 200 "ok") (PStr "ok")).
    + vm_compute. apply list_elem_of_here.
    + reflexivity.
Defined.

(** C5 does not hold with a budget of 2 for every write: [do_ai_update]
    and [do_hhg_update] have the default budget, and on a device that keeps
    answering 500 they make 5 attempts. *)
Lemma write_budget_counterexample :
  length (gets (new_events w0 (do_ai_update rt0 (dev_const 500 "") w0).2)) = 5%nat
  ∧ ¬ (length (gets (new_events w0 (do_ai_update rt0 (dev_const 500 "") w0).2)) ≤ 2)
  ∧ length (gets (new_events w0 (do_hhg_update rt0 (dev_const 500 "") w0).2)) = 5%nat.
Proof.
  assert (length (gets (new_events w0 (do_ai_update rt0 (dev_const 500 "") w0).2))
          = 5%nat) as H by (vm_compute; reflexivity).
  split; [done|]. split; [rewrite H; lia|]. vm_compute. reflexivity.
Qed.

Lemma null_body_is_empty_list_witness :
  (_command rt0 (dev_flaky "null") "ai" "getLastPUSHNotifications" None false
     (Some TList) false 5 0.5%float None w0).1 = Ok (PList []).
Proof.
  apply (null_body_is_empty_list rt0 (dev_flaky "null") "ai" "getLastPUSHNotifications"
           None 5 0.5%float None w0 "http://oven/ai"
           (params0 "getLastPUSHNotifications") 200 "null").
  - vm_compute. apply list_elem_of_further, list_elem_of_further, list_elem_of_here.
  - lia.
  - reflexivity.
Defined.

(** C6 does not hold when [reject_empty] is set: the null body becomes the
    empty list, the emptiness assertion rejects it, and after five such
    attempts the call raises. *)
Lemma null_body_counterexample :
  EvGet "http://oven/hh" (params0 "getCommands") (RespHttp 200 "null")
    ∈ new_events w0 run_null_rejected.2
  ∧ json_loads rt0 "null" = Some PNone
  ∧ run_null_rejected.1 = Raise (AssertionError "empty response rejected")
  ∧ run_null_rejected.1 ≠ Ok (PList []).
Proof.
  split; [vm_compute; apply list_elem_of_here|].
  vm_compute. repeat split; done.
Qed.

Lemma zh_mode_without_value_raises_witness :
  (get_zh_mode rt0 (dev_const 200 "{}") true w0).1 = Raise (KeyError "value").
Proof.
  apply (zh_mode_without_value_raises rt0 (dev_const 200 "{}") true w0
           "http://oven/hh" (params0 "getZHMode") 200 "{}" ∅).
  - vm_compute. apply list_elem_of_here.
  - lia.
  - reflexivity.
  - reflexivity.
Defined.

Lemma command_leaves_params_unchanged_witness :
  heap w1 !! 0%nat = Some {[ "value" := "on" ]}
  ∧ heap (_command rt0 (dev_const 200 "ok") "hh" "setLight" (Some 0%nat) true None false
            2 0.5%float None w1).2 !! 0%nat = Some {[ "value" := "on" ]}.
Proof.
  split; [reflexivity|].
  exact (proj1 (command_leaves_params_unchanged rt0 (dev_const 200 "ok") "hh"
                  "setLight" 0%nat {[ "value" := "on" ]} true None false 2 0.5%float
                  None w1 eq_refl)).
Defined.

(** * Further properties of the executor *)


(** ** Success, trusted statuses and persistent failure *)

(** X1: an attempt that the device answers well ends the call: the call
    returns the value of that attempt, default producer or not, and the
    attempt is its last event; no attempt and no sleep follows it. *)
Theorem command_returns_first_success
    rt self component command params raw et re attempts d0 voe w u q resp v :
  EvGet u q resp
    ∈ new_events w
        (_command rt self component command params raw et re attempts d0 voe w).2 →
  handle_response rt raw et re resp = Ok v →
  (_command rt self component command params raw et re attempts d0 voe w).1 = Ok v
  ∧ last (new_events w
            (_command rt self component command params raw et re attempts d0 voe w).2)
    = Some (EvGet u q resp).
Proof.
  intros Hin Hv.
  destruct (_command_run rt self component command params raw et re attempts d0
              voe w) as (p0 & x & Hres & _ & Hrun & _).
  split.
  - rewrite Hres. by rewrite (loop_run_success _ _ _ _ _ _ _ _ _ _ _ _ Hrun Hin Hv).
  - by eapply loop_run_success_last.
Qed.

(** X2: an attempt that fails with a trusted status, the first one or a
    later one, is the last event of the call, and the call ends with the
    producer's value or, without a producer, with that status error. *)
Theorem trusted_status_ends_call
    rt self component command params raw et re attempts d0 voe w u q resp status :
  EvGet u q resp
    ∈ new_events w
        (_command rt self component command params raw et re attempts d0 voe w).2 →
  handle_response rt raw et re resp = Raise (ClientResponseError status) →
  status ∈ _TRUSTED_STATUS_CODES →
  last (new_events w
          (_command rt self component command params raw et re attempts d0 voe w).2)
    = Some (EvGet u q resp)
  ∧ (_command rt self component command params raw et re attempts d0 voe w).1
    = match voe with
      | Some producer => Ok (producer tt)
      | None => Raise (ClientResponseError status)
      end.
Proof.
  intros Hin Hh Hst.
  destruct (_command_run rt self component command params raw et re attempts d0
              voe w) as (p0 & x & Hres & _ & Hrun & _).
  destruct (loop_run_break_last _ _ _ _ _ _ _ _ _ _ _ _ Hrun Hin Hh) as [Hl Hx].
  { simpl. by rewrite bool_decide_eq_true_2. }
  split; [done|]. by rewrite Hres, Hx.
Qed.

(** X3: when every attempt of a call fails with an exception that the loop
    retries, the call makes as many attempts as the budget allows and sleeps
    after every one of them, also after the last, before it gives the default
    or raises. *)
Theorem persistent_failure_uses_budget
    rt self component command params raw et re attempts d0 voe w :
  forallb (attempt_retried (handle_response rt raw et re))
    (new_events w
       (_command rt self component command params raw et re attempts d0 voe w).2)
    = true →
  length (gets (new_events w
                  (_command rt self component command params raw et re attempts d0
                     voe w).2)) = Z.to_nat attempts
  ∧ length (sleeps (new_events w
                      (_command rt self component command params raw et re attempts
                         d0 voe w).2)) = Z.to_nat attempts
  ∧ new_events w
      (_command rt self component command params raw et re attempts d0 voe w).2
    = with_backoff
        (gets (new_events w
                 (_command rt self component command params raw et re attempts d0
                    voe w).2)) d0.
Proof.
  intros Hall.
  destruct (_command_run rt self component command params raw et re attempts d0
              voe w) as (p0 & x & Hres & _ & Hrun & _).
  destruct (loop_run_all_retried _ _ _ _ _ _ _ _ Hrun Hall) as (Hn & Ht & Hs & _).
  done.
Qed.

(** X4: with an attempt budget that is not positive the call sends nothing
    and sleeps not at all; it gives the producer's value or, without a
    producer, raises [ValueError("no attempts made")]. *)
Theorem no_attempts_made
    rt self component command params raw et re attempts d0 voe w :
  (attempts ≤ 0)%Z →
  new_events w
    (_command rt self component command params raw et re attempts d0 voe w).2 = []
  ∧ (_command rt self component command params raw et re attempts d0 voe w).1
    = match voe with
      | Some producer => Ok (producer tt)
      | None => Raise (ValueError "no attempts made")
      end.
Proof.
  intros Hle.
  destruct (_command_run rt self component command params raw et re attempts d0
              voe w) as (p0 & x & Hres & _ & Hrun & _).
  replace (Z.to_nat attempts) with 0%nat in Hrun by lia.
  destruct (loop_run_no_rounds _ _ _ _ _ _ _ Hrun) as [Ht Hx].
  split; [done|]. by rewrite Hres, Hx.
Qed.

(** ** The shape of what the accessors return *)

(** What an attempt returns passed the checks of [once]. *)
Lemma handle_response_shape rt raw et re resp v :
  handle_response rt raw et re resp = Ok v →
  if raw then isinstance v TStr = true
  else (∀ cls, et = Some cls → isinstance v cls = true)
       ∧ (re = true → ∃ n, py_len v = Ok n ∧ 0 < n).
Proof.
  destruct resp as [e|status body]; simpl; [done|].
  destruct (400 <=? status)%Z; [done|].
  destruct raw; [by intros [= <-]|].
  destruct (json_loads rt body) as [data|]; [|done].
  destruct et as [cls|].
  - match goal with
    | |- context [isinstance ?d cls] => generalize d; intros data'
    end.
    unfold py_assert. destruct (isinstance data' cls) eqn:Hi; [|done].
    destruct re.
    + destruct (py_len data') as [n|] eqn:Hn; [|done].
      destruct (0 <? n) eqn:Hpos; [|done]. intros [= <-].
      split; [by intros ? [= <-]|]. intros _. exists n. split; [done|].
      by apply Nat.ltb_lt.
    + intros [= <-]. split; [by intros ? [= <-]|done].
  - destruct re.
    + destruct (py_len data) as [n|] eqn:Hn; [|done]. unfold py_assert.
      destruct (0 <? n) eqn:Hpos; [|done]. intros [= <-].
      split; [done|]. intros _. exists n. split; [done|]. by apply Nat.ltb_lt.
    + intros [= <-]. by split.
Qed.

Lemma command_shape rt self component command params (raw : bool) (cls : pytype) re
    attempts d0 voe w v :
  (∀ producer, voe = Some producer →
     isinstance (producer tt) (if raw then TStr else cls) = true) →
  (_command rt self component command params raw (Some cls) re attempts d0 voe w).1
    = Ok v →
  isinstance v (if raw then TStr else cls) = true.
Proof.
  intros Hprod Hv.
  destruct (_command_run rt self component command params raw (Some cls) re attempts
              d0 voe w) as (p0 & x & Hres & _ & Hrun & _).
  rewrite Hres in Hv.
  destruct (loop_run_value _ _ _ _ _ _ _ _ _ _ Hrun Hv)
    as [(resp & _ & Hh)|(producer & -> & ->)]; [|by apply Hprod].
  apply handle_response_shape in Hh. destruct raw; [done|].
  by apply (proj1 Hh).
Qed.

Lemma command_shape_raw rt self component command params re attempts d0 voe w v :
  (∀ producer, voe = Some producer → isinstance (producer tt) TStr = true) →
  (_command rt self component command params true None re attempts d0 voe w).1 = Ok v →
  isinstance v TStr = true.
Proof.
  intros Hprod Hv.
  destruct (_command_run rt self component command params true None re attempts
              d0 voe w) as (p0 & x & Hres & _ & Hrun & _).
  rewrite Hres in Hv.
  destruct (loop_run_value _ _ _ _ _ _ _ _ _ _ Hrun Hv)
    as [(resp & _ & Hh)|(producer & -> & ->)]; [|by apply Hprod].
  by apply handle_response_shape in Hh.
Qed.

Lemma producer_if_shape d v cls producer :
  isinstance v cls = true → producer_if d v = Some producer →
  isinstance (producer tt) cls = true.
Proof. destruct d; [|done]. by intros Hv [= <-]. Qed.

Lemma bind_dict_new_result {A} d (k : nat → M A) w :
  ∃ l w1, trace w1 = trace w ∧ (l <- dict_new d ;; k l) w = k l w1
          ∧ heap w1 !! l = Some d
          ∧ ∀ l' d', heap w !! l' = Some d' → heap w1 !! l' = Some d'.
Proof.
  eexists _, _. split; [|split; [reflexivity|split]]; cbn [trace heap].
  - done.
  - by rewrite lookup_insert_eq.
  - intros l' d' Hl'. rewrite lookup_insert_ne; [done|].
    intros <-. apply (is_fresh (dom (heap w))), elem_of_dom. by eauto.
Qed.

(** X5: whatever an accessor returns has the shape it declares, whether it
    comes from the device or is the default: text for the raw ones, a
    dictionary or a list for the JSON ones.  A JSON answer of another shape
    is never handed to the caller. *)
Theorem accessors_return_declared_shape rt self d w v :
  ((get_mac_address rt self d w).1 = Ok v → isinstance v TStr = true)
  ∧ ((get_model_description rt self d w).1 = Ok v → isinstance v TStr = true)
  ∧ ((get_device_status rt self d w).1 = Ok v → isinstance v TDict = true)
  ∧ ((get_update_status rt self d w).1 = Ok v → isinstance v TDict = true)
  ∧ ((get_last_push_notifications rt self d w).1 = Ok v → isinstance v TList = true)
  ∧ ((get_hh_fw_version rt self d w).1 = Ok v → isinstance v TDict = true)
  ∧ ((get_ai_fw_version rt self d w).1 = Ok v → isinstance v TDict = true)
  ∧ ((get_eco_info rt self d w).1 = Ok v → isinstance v TDict = true)
  ∧ ((list_categories rt self w).1 = Ok v → isinstance v TList = true)
  ∧ ((get_device_info rt self w).1 = Ok v → isinstance v TDict = true)
  ∧ ((get_all_program_ids rt self w).1 = Ok v → isinstance v TList = true)
  ∧ (∀ value, (get_category rt self value w).1 = Ok v → isinstance v TDict = true)
  ∧ (∀ value, (list_commands rt self value w).1 = Ok v → isinstance v TList = true)
  ∧ (∀ value, (get_command rt self value w).1 = Ok v → isinstance v TDict = true).
Proof.
  unfold get_mac_address, get_model_description, get_device_status, get_update_status,
    get_last_push_notifications, get_hh_fw_version, get_ai_fw_version, get_eco_info,
    list_categories, get_device_info, get_all_program_ids.
  repeat match goal with |- _ ∧ _ => split end.
  - apply command_shape_raw. intros ?. by apply producer_if_shape.
  - apply command_shape_raw. intros ?. by apply producer_if_shape.
  - apply (command_shape _ _ _ _ _ false TDict). intros ?. by apply producer_if_shape.
  - apply (command_shape _ _ _ _ _ false TDict). intros ?. by apply producer_if_shape.
  - apply (command_shape _ _ _ _ _ false TList). intros ?. by apply producer_if_shape.
  - apply (command_shape _ _ _ _ _ false TDict). intros ?. by apply producer_if_shape.
  - apply (command_shape _ _ _ _ _ false TDict). intros ?. by apply producer_if_shape.
  - apply (command_shape _ _ _ _ _ false TDict). intros ?. by apply producer_if_shape.
  - apply (command_shape _ _ _ _ _ false TList). by intros ?.
  - apply (command_shape _ _ _ _ _ false TDict). by intros ?.
  - apply (command_shape _ _ _ _ _ false TList). by intros ?.
  - intros value. unfold get_category.
    destruct (bind_dict_new_result (A := pyval) {[ "value" := value ]}
                (λ p, _command rt self "hh" "getCategory" (Some p) false (Some TDict)
                        false default_attempts default_retry_delay None) w)
      as (l & w1 & _ & -> & _).
    apply (command_shape _ _ _ _ _ false TDict). by intros ?.
  - intros value. unfold list_commands.
    destruct (bind_dict_new_result (A := pyval) {[ "value" := value ]}
                (λ p, _command rt self "hh" "getCommands" (Some p) false (Some TList)
                        false default_attempts default_retry_delay None) w)
      as (l & w1 & _ & -> & _).
    apply (command_shape _ _ _ _ _ false TList). by intros ?.
  - intros value. unfold get_command.
    destruct (bind_dict_new_result (A := pyval) {[ "value" := value ]}
                (λ p, _command rt self "hh" "getCommand" (Some p) false (Some TDict)
                        false default_attempts default_retry_delay None) w)
      as (l & w1 & _ & -> & _).
    apply (command_shape _ _ _ _ _ false TDict). by intros ?.
Qed.

(** * Further properties of the accessors and the aggregators *)

(** ** How runs compose *)

Lemma adds_ret {A} (P : list event → Prop) (a : A) : P [] → adds P (ret a).
Proof. intros HP w. exists []. by rewrite app_nil_r. Qed.

Lemma adds_lift {A} (P : list event → Prop) (r : outcome A) : P [] → adds P (lift r).
Proof. intros HP w. exists []. by rewrite app_nil_r. Qed.

Lemma adds_raise {A} (P : list event → Prop) e : P [] → adds P (raise (A := A) e).
Proof. intros HP w. exists []. by rewrite app_nil_r. Qed.

Lemma adds_get_time (P : list event → Prop) rt : P [] → adds P (get_time rt).
Proof. intros HP w. exists []. by rewrite app_nil_r. Qed.

Lemma adds_dict_new (P : list event → Prop) d : P [] → adds P (dict_new d).
Proof. intros HP w. exists []. by rewrite app_nil_r. Qed.

Lemma adds_mono {A} (P Q : list event → Prop) (m : M A) :
  (∀ t, P t → Q t) → adds P m → adds Q m.
Proof. intros HPQ Hm w. destruct (Hm w) as (t & Ht & HP). by eauto. Qed.

Lemma adds_bind {A B} (P Q : list event → Prop) (m : M A) (k : A → M B) :
  Q [] → adds P m → (∀ a, adds Q (k a)) → adds (followed_by P Q) (bind m k).
Proof.
  intros HQ Hm Hk w. unfold bind.
  destruct (Hm w) as (t1 & Ht1 & HP).
  destruct (m w) as [[a|e] w1]; cbn [snd] in *.
  - destruct (Hk a w1) as (t2 & Ht2 & HQ2).
    exists (t1 ++ t2). split; [by rewrite Ht2, Ht1, app_assoc|].
    by exists t1, t2.
  - exists t1. split; [done|]. exists t1, []. by rewrite app_nil_r.
Qed.

Lemma adds_bind_any {A B} (m : M A) (k : A → M B) :
  adds (λ _, True) m → (∀ a, adds (λ _, True) (k a)) → adds (λ _, True) (bind m k).
Proof.
  intros Hm Hk.
  apply (adds_mono (followed_by (λ _, True) (λ _, True)) (λ _, True)); [done|].
  by apply adds_bind.
Qed.

(** The events and the outcome of a sequence of two computations. *)
Lemma bind_events {A B} (m : M A) (k : A → M B) w :
  adds (λ _, True) m → (∀ a, adds (λ _, True) (k a)) →
  new_events w (bind m k w).2
    = new_events w (m w).2
      ++ match (m w).1 with
         | Ok a => new_events (m w).2 (k a (m w).2).2
         | Raise _ => []
         end
  ∧ (bind m k w).1
    = match (m w).1 with
      | Ok a => (k a (m w).2).1
      | Raise e => Raise e
      end.
Proof.
  intros Hm Hk. unfold bind.
  destruct (Hm w) as (t1 & Ht1 & _).
  destruct (m w) as [[a|e] w1]; cbn [fst snd] in *.
  - destruct (Hk a w1) as (t2 & Ht2 & _). split; [|done].
    rewrite (new_events_app w w1 t1 Ht1), (new_events_app w1 _ t2 Ht2).
    apply new_events_app. by rewrite Ht2, Ht1, app_assoc.
  - by rewrite app_nil_r.
Qed.

Lemma adds_command rt self component command params raw et re attempts d0 voe :
  adds (Forall (requests (url_join (base_url self) component) command))
    (_command rt self component command params raw et re attempts d0 voe).
Proof.
  intros w.
  destruct (_command_run rt self component command params raw et re attempts d0
              voe w) as (p0 & x & _ & Htr & Hrun & _).
  eexists. split; [exact Htr|].
  apply Forall_forall. intros ev Hin Hget.
  destruct (loop_run_events _ _ _ _ _ _ _ _ Hrun ev Hin Hget) as [resp ->].
  eexists _, resp. split; [done|].
  by rewrite lookup_insert_ne, lookup_insert_eq.
Qed.

Lemma adds_command_any rt self component command params raw et re attempts d0 voe :
  adds (λ _, True) (_command rt self component command params raw et re attempts d0 voe).
Proof.
  apply (adds_mono
           (Forall (requests (url_join (base_url self) component) command))
           (λ _, True)); [done|].
  apply adds_command.
Qed.

(** ** Devices that fail every request *)

Lemma request_failed_caught rt raw et re ev :
  request_failed ev = true → attempt_caught (handle_response rt raw et re) ev = true.
Proof.
  destruct ev as [u q [e|status body]|d]; simpl; [|intros ->; simpl|done].
  - by destruct (except_clause e).
  - by destruct (bool_decide _).
Qed.

Lemma requests_failed_caught rt raw et re t :
  forallb request_failed t = true →
  every_attempt_caught (handle_response rt raw et re) t.
Proof.
  unfold every_attempt_caught. rewrite !forallb_forall.
  intros Hall ev Hin. by apply request_failed_caught, Hall.
Qed.

Lemma attempt_caught_fails h ev : attempt_caught h ev = true → attempt_fails h ev = true.
Proof.
  destruct ev as [u q resp|d]; [|done]. simpl.
  destruct (h resp); [done|]. intros _. by apply bool_decide_eq_true_2.
Qed.

(** On such a device a call gives its default, or raises when it has
    none. *)
Lemma command_on_failing_device rt self component command params raw et re attempts
    d0 (d : bool) dflt w :
  forallb request_failed
    (new_events w
       (_command rt self component command params raw et re attempts d0
          (producer_if d dflt) w).2) = true →
  if d then
    (_command rt self component command params raw et re attempts d0
       (producer_if d dflt) w).1 = Ok dflt
  else
    ∃ e, (_command rt self component command params raw et re attempts d0
            (producer_if d dflt) w).1 = Raise e.
Proof.
  intros Hall. apply (requests_failed_caught rt raw et re) in Hall.
  destruct (_command_run rt self component command params raw et re attempts d0
              (producer_if d dflt) w) as (p0 & x & Hres & _ & Hrun & _).
  rewrite (loop_run_all_caught _ _ _ _ _ _ _ _ Hrun Hall) in Hres.
  destruct d; simpl in Hres; by eauto.
Qed.

Lemma bind_assoc {A B C} (m : M A) (f : A → M B) (g : B → M C) w :
  bind (bind m f) g w = bind m (λ a, bind (f a) g) w.
Proof. unfold bind. by destruct (m w) as [[a|e] w1]. Qed.

(** A call with a default, followed by [k]: on a device that fails every
    request, [k] goes on with the default. *)
Lemma step_default {A} rt self component command params raw et re attempts d0 dflt
    (k : pyval → M A) w :
  (∀ a, adds (λ _, True) (k a)) →
  forallb request_failed
    (new_events w
       (bind (_command rt self component command params raw et re attempts d0
                (producer_if true dflt)) k w).2) = true →
  ∃ w1,
    bind (_command rt self component command params raw et re attempts d0
            (producer_if true dflt)) k w = k dflt w1
    ∧ forallb request_failed (new_events w1 (k dflt w1).2) = true.
Proof.
  intros Hk Hall.
  destruct (bind_events
              (_command rt self component command params raw et re attempts d0
                 (producer_if true dflt)) k w) as [Hev Hres];
    [apply adds_command_any|done|].
  rewrite Hev, forallb_app in Hall. apply andb_true_iff in Hall as [H1 H2].
  pose proof (command_on_failing_device rt self component command params raw et re
                attempts d0 true dflt w H1) as Hd. cbv iota in Hd.
  rewrite Hd in H2. unfold bind at 1.
  destruct (_command _ _ _ _ _ _ _ _ _ _ _ w) as [r w1]. cbn [fst snd] in *.
  subst r. by exists w1.
Qed.

(** A call without default, followed by [k]: on a device that fails every
    request, the call raises and [k] does not run. *)
Lemma step_raise {A} rt self component command params raw et re attempts d0 dflt
    (k : pyval → M A) w :
  (∀ a, adds (λ _, True) (k a)) →
  forallb request_failed
    (new_events w
       (bind (_command rt self component command params raw et re attempts d0
                (producer_if false dflt)) k w).2) = true →
  ∃ e,
    (bind (_command rt self component command params raw et re attempts d0
             (producer_if false dflt)) k w).1 = Raise e
    ∧ new_events w
        (bind (_command rt self component command params raw et re attempts d0
                 (producer_if false dflt)) k w).2
      = new_events w
          (_command rt self component command params raw et re attempts d0
             (producer_if false dflt) w).2.
Proof.
  intros Hk Hall.
  destruct (bind_events
              (_command rt self component command params raw et re attempts d0
                 (producer_if false dflt)) k w) as [Hev Hres];
    [apply adds_command_any|done|].
  rewrite Hev, forallb_app in Hall. apply andb_true_iff in Hall as [H1 _].
  destruct (command_on_failing_device rt self component command params raw et re
              attempts d0 false dflt w H1) as [e He].
  rewrite Hev, Hres, He. exists e. by rewrite app_nil_r.
Qed.

Lemma bind_lift_ok {A B} (a : A) (k : A → M B) w : bind (lift (Ok a)) k w = k a w.
Proof. reflexivity. Qed.

Lemma bind_get_time {B} rt (k : Z → M B) w :
  bind (get_time rt) k w = k (time_time rt (trace w)) w.
Proof. reflexivity. Qed.

Lemma zh_mode_default_value :
  py_getitem (PDict {[ "value" := PInt (-1) ]}) "value" = Ok (PInt (-1)).
Proof. reflexivity. Qed.

Ltac adds_any :=
  repeat first
    [ apply adds_command_any | apply adds_bind_any | apply adds_ret; exact I
    | apply adds_lift; exact I | apply adds_get_time; exact I
    | apply adds_dict_new; exact I | intros ? ].

Lemma adds_get_zh_mode_any rt self d : adds (λ _, True) (get_zh_mode rt self d).
Proof. unfold get_zh_mode. adds_any. Qed.

(** On a device that fails every request, the ZH-mode fetch with its
    default gives -1. *)
Lemma get_zh_mode_on_failing_device rt self w :
  forallb request_failed (new_events w (get_zh_mode rt self true w).2) = true →
  (get_zh_mode rt self true w).1 = Ok (PInt (-1)).
Proof.
  unfold get_zh_mode, bind at 1 2. intros Hall.
  destruct (_command rt self "hh" "getZHMode" None false (Some TDict) false
              default_attempts default_retry_delay
              (producer_if true (PDict {[ "value" := PInt (-1) ]})) w)
    as [r w1] eqn:Hc.
  assert (forallb request_failed (new_events w w1) = true) as Hall'.
  { by destruct r. }
  pose proof (command_on_failing_device rt self "hh" "getZHMode" None false
                (Some TDict) false default_attempts default_retry_delay true
                (PDict {[ "value" := PInt (-1) ]}) w) as Hd.
  rewrite Hc in Hd. cbn [fst snd] in Hd. by rewrite (Hd Hall').
Qed.

(** X6: on a device that fails every request (a client error or a status
    from 400 on), [aggregate_state] with [default_on_error=True] raises
    nothing and returns the snapshot of the defaults: ZH mode -1, an empty
    device status, no notifications, an empty eco info.  With
    [default_on_error=False] the ZH-mode fetch still gives its default, -1;
    the device status is fetched after it, and the call raises the exception
    of that fetch: its events are those of the ZH-mode fetch followed by
    those of the device-status fetch, and nothing else is requested. *)
Theorem aggregate_state_on_failing_device rt self w :
  (forallb request_failed (new_events w (aggregate_state rt self true w).2) = true →
   ∃ fetched_at,
     (aggregate_state rt self true w).1
       = Ok {| zh_mode := PInt (-1); device := PDict ∅;
               device_fetched_at := fetched_at;
               notifications := PList []; eco_info := PDict ∅ |})
  ∧ (forallb request_failed (new_events w (aggregate_state rt self false w).2) = true →
     (get_zh_mode rt self true w).1 = Ok (PInt (-1))
     ∧ (∃ e,
          (aggregate_state rt self false w).1 = Raise e
          ∧ (get_device_status rt self false (get_zh_mode rt self true w).2).1
            = Raise e)
     ∧ new_events w (aggregate_state rt self false w).2
       = new_events w (get_zh_mode rt self true w).2
         ++ new_events (get_zh_mode rt self true w).2
              (get_device_status rt self false (get_zh_mode rt self true w).2).2).
Proof.
  split.
  - unfold aggregate_state, get_zh_mode, get_device_status,
      get_last_push_notifications, get_eco_info.
    intros Hall; rewrite bind_assoc in Hall |- *.
    apply step_default in Hall as (w1 & -> & Hall); [|adds_any].
    rewrite zh_mode_default_value, bind_lift_ok in Hall |- *.
    apply step_default in Hall as (w2 & -> & Hall); [|adds_any].
    rewrite bind_get_time in Hall |- *.
    apply step_default in Hall as (w3 & -> & Hall); [|adds_any].
    apply step_default in Hall as (w4 & -> & Hall); [|adds_any].
    by eexists.
  - unfold aggregate_state. intros Hall.
    match goal with
    | H : context [bind (get_zh_mode rt self true) ?k w] |- _ =>
        destruct (bind_events (get_zh_mode rt self true) k w) as [Hev Hres]
    end.
    { apply adds_get_zh_mode_any. }
    { intros a. unfold get_device_status, get_last_push_notifications, get_eco_info.
      adds_any. }
    rewrite Hev, forallb_app in Hall. apply andb_true_iff in Hall as [Hzh Hrest].
    pose proof (get_zh_mode_on_failing_device rt self w Hzh) as Hm.
    rewrite Hev, Hres, Hm. rewrite Hm in Hrest.
    split; [done|].
    unfold get_device_status in Hrest |- *.
    destruct (bind_events
                (_command rt self "ai" "getDeviceStatus" None false (Some TDict) false
                   default_attempts default_retry_delay
                   (producer_if false (PDict ∅)))
                (λ device,
                   device_fetched_at <- get_time rt ;;
                   notifications <- get_last_push_notifications rt self false ;;
                   eco_info <- get_eco_info rt self false ;;
                   ret {| zh_mode := PInt (-1); device := device;
                          device_fetched_at := device_fetched_at;
                          notifications := notifications; eco_info := eco_info |})
                (get_zh_mode rt self true w).2) as [Hev2 Hres2].
    { apply adds_command_any. }
    { intros a. unfold get_last_push_notifications, get_eco_info. adds_any. }
    rewrite Hev2, forallb_app in Hrest. apply andb_true_iff in Hrest as [Hdev _].
    destruct (command_on_failing_device rt self "ai" "getDeviceStatus" None false
                (Some TDict) false default_attempts default_retry_delay false
                (PDict ∅) (get_zh_mode rt self true w).2 Hdev) as [e He].
    rewrite Hev2, Hres2, He, app_nil_r. split; [|done]. by exists e.
Qed.

(** X7: on a device that fails every request, [aggregate_update_status]
    with [default_on_error=True] returns three empty dictionaries and raises
    nothing; with [default_on_error=False] it raises. *)
Theorem aggregate_update_status_on_failing_device rt self w :
  (forallb request_failed (new_events w (aggregate_update_status rt self true w).2)
     = true →
   (aggregate_update_status rt self true w).1
     = Ok {| update := PDict ∅; ai_fw_version := PDict ∅; hh_fw_version := PDict ∅ |})
  ∧ (forallb request_failed (new_events w (aggregate_update_status rt self false w).2)
       = true →
     ∃ e, (aggregate_update_status rt self false w).1 = Raise e).
Proof.
  unfold aggregate_update_status, get_update_status, get_ai_fw_version,
    get_hh_fw_version.
  split; intros Hall.
  - apply step_default in Hall as (w1 & -> & Hall); [|adds_any].
    apply step_default in Hall as (w2 & -> & Hall); [|adds_any].
    by apply step_default in Hall as (w3 & -> & Hall); [|adds_any].
  - apply step_raise in Hall as (e & -> & _); [|adds_any]. by eauto.
Qed.

(** X8: on a device that fails every request, [aggregate_meta] with
    [default_on_error=True] returns two empty strings; with
    [default_on_error=False], its own default, it raises with the MAC-address
    fetch, and the model description is not requested any more. *)
Theorem aggregate_meta_on_failing_device rt self w :
  (forallb request_failed (new_events w (aggregate_meta rt self true w).2) = true →
   (aggregate_meta rt self true w).1
     = Ok {| mac_address := PStr ""; model_description := PStr "" |})
  ∧ (forallb request_failed (new_events w (aggregate_meta rt self false w).2) = true →
     (∃ e, (aggregate_meta rt self false w).1 = Raise e)
     ∧ new_events w (aggregate_meta rt self false w).2
       = new_events w (get_mac_address rt self false w).2).
Proof.
  unfold aggregate_meta, get_mac_address, get_model_description.
  split; intros Hall.
  - apply step_default in Hall as (w1 & -> & Hall); [|adds_any].
    by apply step_default in Hall as (w2 & -> & Hall); [|adds_any].
  - apply step_raise in Hall as (e & -> & ->); [|adds_any]. by eauto.
Qed.

(** ** The order of the requests of the other aggregates *)

Lemma followed_by_nil (P Q : list event → Prop) : P [] → Q [] → followed_by P Q [].
Proof. intros HP HQ. by exists [], []. Qed.

(** X9: the sub-fetches of [aggregate_update_status] and of
    [aggregate_meta] run one after the other, in the order of the source:
    the update status, the firmware version of the [ai] endpoint, the
    firmware version of the [hh] endpoint; and the MAC address before the
    model description. *)
Theorem aggregates_fetch_in_order rt self d w :
  (∃ t1 t2 t3,
     new_events w (aggregate_update_status rt self d w).2 = t1 ++ t2 ++ t3
     ∧ Forall (requests (url_join (base_url self) "ai") "getUpdateStatus") t1
     ∧ Forall (requests (url_join (base_url self) "ai") "getFWVersion") t2
     ∧ Forall (requests (url_join (base_url self) "hh") "getFWVersion") t3)
  ∧ (∃ t1 t2,
       new_events w (aggregate_meta rt self d w).2 = t1 ++ t2
       ∧ Forall (requests (url_join (base_url self) "ai") "getMacAddress") t1
       ∧ Forall (requests (url_join (base_url self) "ai") "getModelDescription") t2).
Proof.
  split.
  - assert (adds
              (followed_by
                 (Forall (requests (url_join (base_url self) "ai") "getUpdateStatus"))
                 (followed_by
                    (Forall (requests (url_join (base_url self) "ai") "getFWVersion"))
                    (followed_by
                       (Forall (requests (url_join (base_url self) "hh") "getFWVersion"))
                       (λ t, t = []))))
              (aggregate_update_status rt self d)) as Hadds.
    { unfold aggregate_update_status, get_update_status, get_ai_fw_version,
        get_hh_fw_version.
      apply adds_bind; [|apply adds_command|intros u].
      { apply followed_by_nil; [done|]. by apply followed_by_nil. }
      apply adds_bind; [|apply adds_command|intros a].
      { by apply followed_by_nil. }
      apply adds_bind; [done|apply adds_command|intros hh].
      by apply adds_ret. }
    destruct (Hadds w) as (t & Ht & t1 & r1 & -> & H1 & t2 & r2 & -> & H2 & t3 & r3
                           & -> & H3 & ->).
    exists t1, t2, t3. rewrite (new_events_app _ _ _ Ht), app_nil_r. done.
  - assert (adds
              (followed_by
                 (Forall (requests (url_join (base_url self) "ai") "getMacAddress"))
                 (followed_by
                    (Forall (requests (url_join (base_url self) "ai")
                               "getModelDescription"))
                    (λ t, t = [])))
              (aggregate_meta rt self d)) as Hadds.
    { unfold aggregate_meta, get_mac_address, get_model_description.
      apply adds_bind; [|apply adds_command|intros u].
      { by apply followed_by_nil. }
      apply adds_bind; [done|apply adds_command|intros a].
      by apply adds_ret. }
    destruct (Hadds w) as (t & Ht & t1 & r1 & -> & H1 & t2 & r2 & -> & H2 & ->).
    exists t1, t2. rewrite (new_events_app _ _ _ Ht), app_nil_r. done.
Qed.

(** ** The ZH mode *)

Lemma bind_lift_events {A B} (m : M A) (f : A → outcome B) w :
  (bind m (λ a, lift (f a)) w).2 = (m w).2.
Proof. unfold bind, lift. by destruct (m w) as [[a|e] w1]. Qed.

Lemma bind_lift_result {A B} (m : M A) (f : A → outcome B) w a :
  (m w).1 = Ok a → (bind m (λ a, lift (f a)) w).1 = f a.
Proof. unfold bind, lift. destruct (m w) as [[a'|e] w1]; [|done]. by intros [= ->]. Qed.

(** X10: [get_zh_mode] hands out the ["value"] entry of the object that
    the device answers, whatever that entry is; and on a device that fails
    every request, with [default_on_error=True], it returns -1. *)
Theorem get_zh_mode_unwraps rt self w :
  (∀ d u q status body o v,
     EvGet u q (RespHttp status body) ∈ new_events w (get_zh_mode rt self d w).2 →
     (status < 400)%Z →
     json_loads rt body = Some (PDict o) →
     o !! "value" = Some v →
     (get_zh_mode rt self d w).1 = Ok v)
  ∧ (forallb request_failed (new_events w (get_zh_mode rt self true w).2) = true →
     (get_zh_mode rt self true w).1 = Ok (PInt (-1))).
Proof.
  unfold get_zh_mode. split.
  - intros d u q status body o v Hin Hst Hbody Hval.
    rewrite bind_lift_events in Hin.
    destruct (_command_run rt self "hh" "getZHMode" None false (Some TDict) false
                default_attempts default_retry_delay
                (producer_if d (PDict {[ "value" := PInt (-1) ]})) w)
      as (p0 & x & Hres & _ & Hrun & _).
    assert (handle_response rt false (Some TDict) false (RespHttp status body)
              = Ok (PDict o)) as Hh.
    { simpl. destruct (Z.leb_spec 400 status); [lia|]. by rewrite Hbody. }
    rewrite (loop_run_success _ _ _ _ _ _ _ _ _ _ _ _ Hrun Hin Hh) in Hres.
    rewrite (bind_lift_result _ _ _ _ Hres). simpl. by rewrite Hval.
  - intros Hall. rewrite bind_lift_events in Hall.
    pose proof (command_on_failing_device rt self "hh" "getZHMode" None false
                  (Some TDict) false default_attempts default_retry_delay true
                  (PDict {[ "value" := PInt (-1) ]}) w Hall) as Hd.
    cbv iota in Hd. by rewrite (bind_lift_result _ _ _ _ Hd).
Qed.

(** ** The parameters of the requests *)

Lemma prelude_final_params_none rt command w :
  heap (prelude rt command None w).2 !! (prelude rt command None w).1
    = Some (final_params_of (time_time rt (trace w)) command ∅).
Proof.
  unfold prelude, final_params_of. cbn [fst snd heap].
  by rewrite !lookup_alter_eq, lookup_insert_eq, lookup_insert_eq.
Qed.

Lemma prelude_final_params_some rt command l d w :
  heap w !! l = Some d →
  heap (prelude rt command (Some l) w).2 !! (prelude rt command (Some l) w).1
    = Some (final_params_of (time_time rt (trace w)) command d).
Proof.
  intros Hl. unfold prelude, final_params_of. cbn [fst snd heap].
  by rewrite !lookup_alter_eq, lookup_insert_eq, Hl.
Qed.

(** All the requests of a call go to the same URL with the same final
    parameters. *)
Lemma command_requests_with rt self component command params raw et re attempts d0
    voe w p :
  heap (prelude rt command params w).2 !! (prelude rt command params w).1 = Some p →
  Forall (λ ev, ∃ resp, ev = EvGet (url_join (base_url self) component) p resp)
    (gets
       (new_events w
          (_command rt self component command params raw et re attempts d0 voe w).2)).
Proof.
  intros Hp. rewrite _command_unfold. cbv zeta. cbn [snd].
  destruct (retry_loop_run rt self (url_join (base_url self) component)
              (prelude rt command params w).1 raw et re (Z.to_nat attempts) d0
              (ValueError "no attempts made") (prelude rt command params w).2)
    as (t & Hrun & Htr & _).
  rewrite Hp in Hrun. cbn [default from_option id] in Hrun.
  rewrite prelude_trace in Htr. rewrite (new_events_app _ _ _ Htr).
  apply Forall_forall. intros ev Hin. apply list_elem_of_In in Hin.
  unfold gets in Hin. apply filter_In in Hin as [Hin Hget].
  apply list_elem_of_In in Hin.
  by apply (loop_run_events _ _ _ _ _ _ _ _ Hrun).
Qed.

Lemma new_events_same_trace w w1 w' :
  trace w1 = trace w → new_events w w' = new_events w1 w'.
Proof. unfold new_events. by intros ->. Qed.

Lemma bind_ret_world {A B} (m : M A) (b : B) w : (bind m (λ _, ret b) w).2 = (m w).2.
Proof. unfold bind, ret. by destruct (m w) as [[a|e] w1]. Qed.

Lemma options_or_empty (options : option (gmap string pyval)) :
  match options with
  | None => ∅
  | Some o => if decide (o = ∅) then ∅ else o
  end = default ∅ options.
Proof. destruct options as [o|]; [|done]. simpl. by destruct (decide (o = ∅)). Qed.

(** X11: every request of a call without caller parameters carries exactly
    the two entries [command] and [_], the same on every attempt: the
    cache-buster is the decimal of the clock read once, when the call starts.
    So do the requests of [do_command_action], for the command ["do" +
    command]. *)
Theorem requests_without_parameters
    rt self component command raw et re attempts d0 voe w :
  Forall (λ ev, ∃ resp,
            ev = EvGet (url_join (base_url self) component)
                   (<["_" := pretty (time_time rt (trace w))]>
                      {[ "command" := command ]}) resp)
    (gets
       (new_events w
          (_command rt self component command None raw et re attempts d0 voe w).2))
  ∧ Forall (λ ev, ∃ resp,
              ev = EvGet (url_join (base_url self) "hh")
                     (<["_" := pretty (time_time rt (trace w))]>
                        {[ "command" := "do" +:+ command ]}) resp)
      (gets (new_events w (do_command_action rt self command w).2)).
Proof.
  split.
  - apply command_requests_with. by rewrite prelude_final_params_none.
  - unfold do_command_action. rewrite bind_ret_world.
    apply command_requests_with. by rewrite prelude_final_params_none.
Qed.

(** X12: the requests of [set_command] carry the value under ["value"] and
    the command ["set" + command]; the requests of [set_program] carry under
    ["value"] the serialized options in which ["id"] is the program id that
    was passed, whatever ["id"] the options had, and just that id when there
    are no options. *)
Theorem write_requests_parameters rt self w :
  (∀ command value,
     Forall (λ ev, ∃ resp,
               ev = EvGet (url_join (base_url self) "hh")
                      (final_params_of (time_time rt (trace w)) ("set" +:+ command)
                         {[ "value" := value ]}) resp)
       (gets (new_events w (set_command rt self command value w).2)))
  ∧ (∀ program_id options,
       Forall (λ ev, ∃ resp,
                 ev = EvGet (url_join (base_url self) "hh")
                        (final_params_of (time_time rt (trace w)) "setProgram"
                           {[ "value" :=
                                json_dumps rt
                                  (<["id" := PInt program_id]> (default ∅ options)) ]})
                        resp)
         (gets (new_events w (set_program rt self program_id options w).2))).
Proof.
  split.
  - intros command value. unfold set_command.
    destruct (bind_dict_new_result (A := unit) {[ "value" := value ]}
                (λ p, _command rt self "hh" ("set" +:+ command) (Some p) true None
                        false 2 default_retry_delay None ;; ret tt) w)
      as (l & w1 & Htr & -> & Hl & _).
    rewrite bind_ret_world, (new_events_same_trace w w1 _ Htr), <- Htr.
    apply command_requests_with. by apply prelude_final_params_some.
  - intros program_id options. unfold set_program. rewrite options_or_empty.
    destruct (bind_dict_new_result (A := pyval)
                {[ "value" :=
                     json_dumps rt (<["id" := PInt program_id]> (default ∅ options)) ]}
                (λ p, _command rt self "hh" "setProgram" (Some p) true None
                        false 2 default_retry_delay None) w)
      as (l & w1 & Htr & -> & Hl & _).
    rewrite (new_events_same_trace w w1 _ Htr), <- Htr.
    apply command_requests_with. by apply prelude_final_params_some.
Qed.

(** ** Emptiness *)

(** X13: with [reject_empty] and without a producer, what a JSON call
    returns has a length and is not empty.  A raw call returns the body
    before any check: it hands out an empty body even with [reject_empty]. *)
Theorem reject_empty_guards_json_only rt self component command params et attempts d0 w :
  (∀ v,
     (_command rt self component command params false et true attempts d0 None w).1
       = Ok v →
     ∃ n, py_len v = Ok n ∧ 0 < n)
  ∧ (∀ voe u q status,
       EvGet u q (RespHttp status "")
         ∈ new_events w
             (_command rt self component command params true et true attempts d0 voe
                w).2 →
       (status < 400)%Z →
       (_command rt self component command params true et true attempts d0 voe w).1
         = Ok (PStr "")).
Proof.
  split.
  - intros v Hv.
    destruct (_command_run rt self component command params false et true attempts
                d0 None w) as (p0 & x & Hres & _ & Hrun & _).
    rewrite Hres in Hv.
    destruct (loop_run_value _ _ _ _ _ _ _ _ _ _ Hrun Hv)
      as [(resp & _ & Hh)|(producer & [=] & _)].
    apply handle_response_shape in Hh. by apply (proj2 Hh).
  - intros voe u q status Hin Hst.
    destruct (_command_run rt self component command params true et true attempts
                d0 voe w) as (p0 & x & Hres & _ & Hrun & _).
    rewrite Hres.
    rewrite (loop_run_success _ _ _ _ _ _ _ _ _ _ _ (PStr "") Hrun Hin); [done|].
    simpl. by destruct (Z.leb_spec 400 status); [lia|].
Qed.

(** ** Programs *)

Lemma build_programs_dicts ds :
  build_programs (map PDict ds) = Ok (map Program.build ds).
Proof. induction ds as [|d ds IH]; [done|]. simpl. by rewrite IH. Qed.

Lemma build_programs_not_dict l :
  Exists (λ v, isinstance v TDict = false) l → ∃ e, build_programs l = Raise e.
Proof.
  induction 1 as [v l Hv|v l _ IH]; simpl.
  - destruct v; by eauto.
  - destruct (build_program v); [|by eauto].
    destruct IH as [e ->]. by eauto.
Qed.

(** X14: when the device answers [getProgram] with a list of objects,
    [get_program] returns the programs built from them, one for each and in
    their order; when an element of the list is not an object, it raises. *)
Theorem get_program_builds_each rt self w u q status body :
  EvGet u q (RespHttp status body) ∈ new_events w (get_program rt self w).2 →
  (status < 400)%Z →
  (∀ ds, json_loads rt body = Some (PList (map PDict ds)) →
         (get_program rt self w).1 = Ok (map Program.build ds))
  ∧ (∀ l, json_loads rt body = Some (PList l) →
          Exists (λ v, isinstance v TDict = false) l →
          ∃ e, (get_program rt self w).1 = Raise e).
Proof.
  intros Hin Hst.
  assert (∀ w', get_program rt self w'
                = bind (_command rt self "hh" "getProgram" None false (Some TList) false
                          default_attempts default_retry_delay None)
                    (λ a, lift match a with
                               | PList l => build_programs l
                               | _ => Raise (TypeError "not iterable")
                               end) w') as Heq.
  { intros w'. unfold get_program, bind.
    destruct (_command _ _ _ _ _ _ _ _ _ _ _ w') as [[a|e] w1]; [|done].
    by destruct a. }
  rewrite Heq in Hin |- *. rewrite bind_lift_events in Hin.
  destruct (_command_run rt self "hh" "getProgram" None false (Some TList) false
              default_attempts default_retry_delay None w)
    as (p0 & x & Hres & _ & Hrun & _).
  assert (∀ l, json_loads rt body = Some (PList l) →
               (_command rt self "hh" "getProgram" None false (Some TList) false
                  default_attempts default_retry_delay None w).1 = Ok (PList l)) as Hl.
  { intros l Hbody.
    assert (handle_response rt false (Some TList) false (RespHttp status body)
            = Ok (PList l)) as Hh.
    { simpl. destruct (Z.leb_spec 400 status); [lia|]. by rewrite Hbody. }
    by rewrite Hres, (loop_run_success _ _ _ _ _ _ _ _ _ _ _ _ Hrun Hin Hh). }
  split.
  - intros ds Hbody. rewrite (bind_lift_result _ _ _ _ (Hl _ Hbody)).
    apply build_programs_dicts.
  - intros l Hbody Hex. rewrite (bind_lift_result _ _ _ _ (Hl _ Hbody)).
    by apply build_programs_not_dict.
Qed.

(** X15: the result of [Program.build] does not depend on the order in
    which the key set of [ProgramInfo] is iterated. *)
Theorem build_order_independent keys raw :
  keys ≡ₚ ProgramInfo_keys → Program.build_over keys raw = Program.build raw.
Proof. intros Hp. unfold Program.build. by apply build_over_perm. Qed.

(** ** The configuration aggregate and the reads without default *)

(** X16: [aggregate_config] returns the empty tree or raises: with a
    category to fetch, the first round of its loop raises. *)
Theorem aggregate_config_returns_empty_only rt self w :
  (aggregate_config rt self w).1 = Ok ∅
  ∨ ∃ e, (aggregate_config rt self w).1 = Raise e.
Proof.
  assert (∀ r, (aggregate_config rt self w).1 = r → r = Ok ∅ ∨ ∃ e, r = Raise e)
    as Hr; [|by apply Hr].
  unfold aggregate_config, bind at 1.
  destruct (list_categories rt self w) as [[v|e] w1]; [|intros r <-; by eauto].
  unfold bind at 1, lift.
  destruct (iter_strs v) as [[|k ks]|e]; intros r <-; [by left| |by eauto].
  right. cbn [for_each]. unfold bind at 1. rewrite aggregate_category_raises.
  by eauto.
Qed.

(** X17: the reads that declare no default make at most 5 attempts
    ([check_for_updates] at most 2), end with an exception when all their
    attempts failed, and return only after an attempt that the device
    answered well. *)
Theorem reads_without_default_surface rt self w :
  surfaces (handle_response rt false (Some TList) false) 5 w (list_categories rt self w)
  ∧ surfaces (handle_response rt false (Some TDict) false) 5 w
      (get_device_info rt self w)
  ∧ surfaces (handle_response rt false (Some TList) false) 5 w
      (get_all_program_ids rt self w)
  ∧ (∀ value,
       surfaces (handle_response rt false (Some TDict) false) 5 w
         (get_category rt self value w))
  ∧ (∀ value,
       surfaces (handle_response rt false (Some TList) false) 5 w
         (list_commands rt self value w))
  ∧ (∀ value,
       surfaces (handle_response rt false (Some TDict) false) 5 w
         (get_command rt self value w))
  ∧ surfaces (handle_response rt true None false) 2 w (check_for_updates rt self w).
Proof.
  unfold list_categories, get_device_info, get_all_program_ids, get_category,
    list_commands, get_command, check_for_updates.
  split; [|split; [|split; [|split; [|split; [|split]]]]].
  - apply (command_surfaces rt self "hh" _ None false (Some TList) false 5).
  - apply (command_surfaces rt self "hh" _ None false (Some TDict) false 5).
  - apply (command_surfaces rt self "hh" _ None false (Some TList) false 5).
  - intros value. apply surfaces_dict_new. intros l w1 _.
    apply (command_surfaces rt self "hh" _ (Some l) false (Some TDict) false 5).
  - intros value. apply surfaces_dict_new. intros l w1 _.
    apply (command_surfaces rt self "hh" _ (Some l) false (Some TList) false 5).
  - intros value. apply surfaces_dict_new. intros l w1 _.
    apply (command_surfaces rt self "hh" _ (Some l) false (Some TDict) false 5).
  - apply surfaces_void.
    apply (command_surfaces rt self "ai" _ None true None false 2).
Qed.

(** ** How many requests a poll costs *)

Lemma gets_app t1 t2 : gets (t1 ++ t2) = gets t1 ++ gets t2.
Proof. unfold gets. apply List.filter_app. Qed.

Lemma adds_command_budget rt self component command params raw et re attempts d0 voe :
  adds (λ t, length (gets t) ≤ Z.to_nat attempts)
    (_command rt self component command params raw et re attempts d0 voe).
Proof.
  intros w.
  destruct (_command_run rt self component command params raw et re attempts d0
              voe w) as (p0 & x & _ & Htr & Hrun & _).
  eexists. split; [exact Htr|]. by eapply loop_run_gets_length.
Qed.

Lemma followed_by_budget (n1 n2 : nat) t :
  followed_by (λ t, length (gets t) ≤ n1) (λ t, length (gets t) ≤ n2) t →
  length (gets t) ≤ n1 + n2.
Proof.
  intros (t1 & t2 & -> & H1 & H2). rewrite gets_app, length_app. lia.
Qed.

Lemma adds_bind_budget {A B} (n1 n2 : nat) (m : M A) (k : A → M B) :
  adds (λ t, length (gets t) ≤ n1) m →
  (∀ a, adds (λ t, length (gets t) ≤ n2) (k a)) →
  adds (λ t, length (gets t) ≤ n1 + n2) (bind m k).
Proof.
  intros Hm Hk.
  apply (adds_mono
           (followed_by (λ t, length (gets t) ≤ n1) (λ t, length (gets t) ≤ n2))).
  - apply followed_by_budget.
  - apply adds_bind; [simpl; lia|done|done].
Qed.

Ltac adds_budget :=
  repeat first
    [ apply (adds_bind_budget 5); [apply adds_command_budget|intros ?]
    | apply (adds_bind_budget 0);
      [first [apply adds_get_time|apply adds_lift]; simpl; lia|intros ?]
    | apply adds_ret; simpl; lia | apply adds_lift; simpl; lia ].

(** X18: one call of [aggregate_state] sends at most 20 requests to the
    device, one of [aggregate_update_status] at most 15 and one of
    [aggregate_meta] at most 10, whatever the device answers. *)
Theorem aggregates_request_budget rt self d w :
  length (gets (new_events w (aggregate_state rt self d w).2)) ≤ 20
  ∧ length (gets (new_events w (aggregate_update_status rt self d w).2)) ≤ 15
  ∧ length (gets (new_events w (aggregate_meta rt self d w).2)) ≤ 10.
Proof.
  split; [|split].
  - assert (adds (λ t, length (gets t) ≤ 5 + 0 + (5 + (0 + (5 + (5 + 0)))))
              (aggregate_state rt self d)) as Hadds.
    { unfold aggregate_state, get_zh_mode, get_device_status,
        get_last_push_notifications, get_eco_info.
      apply adds_bind_budget; [|intros ?; adds_budget].
      apply adds_bind_budget; [apply adds_command_budget|intros ?].
      apply adds_lift. simpl. lia. }
    destruct (Hadds w) as (t & Ht & Hn). by rewrite (new_events_app _ _ _ Ht).
  - assert (adds (λ t, length (gets t) ≤ 5 + (5 + (5 + 0)))
              (aggregate_update_status rt self d)) as Hadds.
    { unfold aggregate_update_status, get_update_status, get_ai_fw_version,
        get_hh_fw_version. adds_budget. }
    destruct (Hadds w) as (t & Ht & Hn). by rewrite (new_events_app _ _ _ Ht).
  - assert (adds (λ t, length (gets t) ≤ 5 + (5 + 0)) (aggregate_meta rt self d))
      as Hadds.
    { unfold aggregate_meta, get_mac_address, get_model_description. adds_budget. }
    destruct (Hadds w) as (t & Ht & Hn). by rewrite (new_events_app _ _ _ Ht).
Qed.

(** ** The further theorems at work on concrete devices *)

Lemma command_returns_first_success_witness :
  (get_device_status rt0 (dev_flaky "{}") true w0).1 = Ok (PDict ∅)
  ∧ last (new_events w0 (get_device_status rt0 (dev_flaky "{}") true w0).2)
    = Some (EvGet "http://oven/ai" (params0 "getDeviceStatus") (RespHttp 200 "{}")).
Proof.
  apply (command_returns_first_success rt0 (dev_flaky "{}") "ai" "getDeviceStatus" None
           false (Some TDict) false 5 0.5%float (Some (λ _, PDict ∅)) w0
           "http://oven/ai" (params0 "getDeviceStatus") (RespHttp 200 "{}") (PDict ∅)).
  - vm_compute. apply list_elem_of_further, list_elem_of_further, list_elem_of_here.
  - reflexivity.
Defined.

Lemma trusted_status_ends_call_witness :
  last (new_events w0 (get_device_info rt0 dev_late_404 w0).2)
    = Some (EvGet "http://oven/hh" (params0 "getDeviceInfo") (RespHttp 404 ""))
  ∧ (get_device_info rt0 dev_late_404 w0).1 = Raise (ClientResponseError 404).
Proof.
  apply (trusted_status_ends_call rt0 dev_late_404 "hh" "getDeviceInfo" None
           false (Some TDict) false 5 0.5%float None w0
           "http://oven/hh" (params0 "getDeviceInfo") (RespHttp 404 "") 404).
  - vm_compute. apply list_elem_of_further, list_elem_of_further, list_elem_of_here.
  - reflexivity.
  - vm_compute. reflexivity.
Defined.

Lemma persistent_failure_uses_budget_witness :
  length (gets (new_events w0 (list_categories rt0 (dev_const 500 "") w0).2)) = 5%nat
  ∧ length (sleeps (new_events w0 (list_categories rt0 (dev_const 500 "") w0).2)) = 5%nat
  ∧ new_events w0 (list_categories rt0 (dev_const 500 "") w0).2
    = with_backoff (gets (new_events w0 (list_categories rt0 (dev_const 500 "") w0).2))
        0.5%float.
Proof.
  apply (persistent_failure_uses_budget rt0 (dev_const 500 "") "hh" "getCategories"
           None false (Some TList) false 5 0.5%float None w0).
  vm_compute. reflexivity.
Defined.

Lemma no_attempts_made_witness :
  new_events w0
    (_command rt0 (dev_const 200 "{}") "hh" "getDeviceInfo" None false (Some TDict)
       false 0 0.5%float None w0).2 = []
  ∧ (_command rt0 (dev_const 200 "{}") "hh" "getDeviceInfo" None false (Some TDict)
       false 0 0.5%float None w0).1 = Raise (ValueError "no attempts made").
Proof.
  apply (no_attempts_made rt0 (dev_const 200 "{}") "hh" "getDeviceInfo" None false
           (Some TDict) false 0 0.5%float None w0).
  lia.
Defined.

Lemma aggregate_state_on_failing_device_witness :
  (∃ fetched_at,
     (aggregate_state rt0 (dev_const 500 "") true w0).1
       = Ok {| zh_mode := PInt (-1); device := PDict ∅; device_fetched_at := fetched_at;
               notifications := PList []; eco_info := PDict ∅ |})
  ∧ (get_zh_mode rt0 (dev_const 500 "") true w0).1 = Ok (PInt (-1))
  ∧ (∃ e,
       (aggregate_state rt0 (dev_const 500 "") false w0).1 = Raise e
       ∧ (get_device_status rt0 (dev_const 500 "") false
            (get_zh_mode rt0 (dev_const 500 "") true w0).2).1 = Raise e)
  ∧ new_events w0 (aggregate_state rt0 (dev_const 500 "") false w0).2
    = new_events w0 (get_zh_mode rt0 (dev_const 500 "") true w0).2
      ++ new_events (get_zh_mode rt0 (dev_const 500 "") true w0).2
           (get_device_status rt0 (dev_const 500 "") false
              (get_zh_mode rt0 (dev_const 500 "") true w0).2).2.
Proof.
  split.
  - apply (proj1 (aggregate_state_on_failing_device rt0 (dev_const 500 "") w0)).
    vm_compute. reflexivity.
  - apply (proj2 (aggregate_state_on_failing_device rt0 (dev_const 500 "") w0)).
    vm_compute. reflexivity.
Defined.

Lemma aggregate_update_status_on_failing_device_witness :
  (aggregate_update_status rt0 (dev_const 503 "") true w0).1
    = Ok {| update := PDict ∅; ai_fw_version := PDict ∅; hh_fw_version := PDict ∅ |}.
Proof.
  apply (proj1 (aggregate_update_status_on_failing_device rt0 (dev_const 503 "") w0)).
  vm_compute. reflexivity.
Defined.

Lemma aggregate_meta_on_failing_device_witness :
  (∃ e, (aggregate_meta rt0 (dev_const 500 "") false w0).1 = Raise e)
  ∧ new_events w0 (aggregate_meta rt0 (dev_const 500 "") false w0).2
    = new_events w0 (get_mac_address rt0 (dev_const 500 "") false w0).2.
Proof.
  apply (proj2 (aggregate_meta_on_failing_device rt0 (dev_const 500 "") w0)).
  vm_compute. reflexivity.
Defined.

Lemma get_zh_mode_unwraps_witness :
  (get_zh_mode rt0 (dev_const 404 "") true w0).1 = Ok (PInt (-1)).
Proof.
  apply (proj2 (get_zh_mode_unwraps rt0 (dev_const 404 "") w0)).
  vm_compute. reflexivity.
Defined.

Lemma get_program_builds_each_witness :
  (get_program rt1 (dev_const 200 body_program) w0).1
    = Ok [Program.build {[ "id" := PInt 50; "name" := PStr "Eco" ]}].
Proof.
  apply (proj1 (get_program_builds_each rt1 (dev_const 200 body_program) w0
                  "http://oven/hh" (params0 "getProgram") 200 body_program
                  ltac:(vm_compute; apply list_elem_of_here) ltac:(lia))
           [{[ "id" := PInt 50; "name" := PStr "Eco" ]}]).
  reflexivity.
Defined.

Lemma build_order_independent_witness :
  Program.build_over ["stepIds"; "status"; "name"; "id"]
    {[ "id" := PInt 50; "name" := PStr "Eco"; "dryPlus" := PBool false ]}
  = Program.build {[ "id" := PInt 50; "name" := PStr "Eco"; "dryPlus" := PBool false ]}.
Proof.
  apply build_order_independent.
  symmetry. apply (Permutation_rev ["id"; "name"; "status"; "stepIds"]).
Defined.
